(** * Debug adapter protocol transport (v8Protocol.ts)

    A shallow embedding of [DebugAdapterProtocol]
    (src/vs/workbench/parts/debug/node/v8Protocol.ts): the header-delimited
    frame encoder ([sendMessage], [sendRequest], [sendResponse]), the
    incremental decoder ([connect], [handleData]) and the dispatcher
    ([dispatch]), with the properties of the design document stated and
    settled on the model; and of the PATH handling of the Windows installer
    (build/win32/code.iss): [Explode], [NeedsAddPath] and the loop of
    [CurUninstallStepChanged].

    Conventions of the model.
    - A JavaScript string is the list of its UTF-16 code units ([jsstring]).
    - A [Buffer] is a list of bytes.
    - JavaScript numbers that hold lengths, indices and sequence numbers are
      integers ([Z], [N], [nat]); the model is exact throughout the range in
      which the double arithmetic of JavaScript is exact on integers.
    - The platform functions [JSON.parse] and [JSON.stringify] are parameters
      of the transport (Section [Transport]); [Module JSON] gives a reference
      implementation on which the closed examples are evaluated.
    - Emitters, callbacks, [console.error] and the output stream are observed
      through logs kept in the state; listeners and callbacks are taken not
      to throw and not to re-enter the transport. *)

From Stdlib Require Import ZArith NArith Lia List Bool.
From Stdlib Require Import Strings.String Strings.Ascii Strings.Byte.
From stdpp Require Import base option list gmap.

Local Open Scope N_scope.

(* ===================================================================== *)
(** * Strings and buffers *)
(* ===================================================================== *)

(** A JavaScript string: UTF-16 code units. *)
Definition jsstring := list N.

(** The code units of an ASCII literal. *)
Definition str (s : string) : jsstring :=
  map N_of_ascii (list_ascii_of_string s).

Definition byte_of_N (n : N) : byte :=
  match Byte.of_N n with Some b => b | None => x00 end.

(** The bytes of an ASCII literal. *)
Definition ascii_bytes (s : string) : list byte := list_byte_of_string s.

Fixpoint jsstring_eqb (a b : jsstring) : bool :=
  match a, b with
  | [], [] => true
  | x :: a', y :: b' => (x =? y) && jsstring_eqb a' b'
  | _, _ => false
  end.

(** [s.startsWith(p)], returning what follows the prefix. *)
Fixpoint strip_prefix (p s : jsstring) : option jsstring :=
  match p with
  | [] => Some s
  | x :: p' =>
      match s with
      | [] => None
      | y :: s' => if x =? y then strip_prefix p' s' else None
      end
  end.

(** [s.indexOf(p)]: the index of the first occurrence, [None] for [-1]. *)
Fixpoint indexOf (p s : jsstring) : option nat :=
  match strip_prefix p s with
  | Some _ => Some O
  | None =>
      match s with
      | [] => None
      | _ :: s' => S <$> indexOf p s'
      end
  end.

Definition is_digit (u : N) : bool := (48 <=? u) && (u <=? 57).

(** The longest prefix of decimal digits ([\d+] is greedy). *)
Fixpoint take_digits (s : jsstring) : jsstring :=
  match s with
  | u :: s' => if is_digit u then u :: take_digits s' else []
  | [] => []
  end.

Definition Content_Length : jsstring := str "Content-Length: ".

(** [/Content-Length: (\d+)/.exec(s)]: the leftmost match, returning the
    capture group [match[1]]. *)
Fixpoint exec_Content_Length (s : jsstring) : option jsstring :=
  let here :=
    match strip_prefix Content_Length s with
    | Some rest =>
        match take_digits rest with
        | [] => None
        | ds => Some ds
        end
    | None => None
    end in
  match here with
  | Some ds => Some ds
  | None =>
      match s with
      | [] => None
      | _ :: s' => exec_Content_Length s'
      end
  end.

(** One more decimal digit read. *)
Definition Number_step (acc d : N) : N := 10 * acc + (d - 48).

(** [Number(digits)] on a string of decimal digits. *)
Definition Number (ds : jsstring) : N := fold_left Number_step ds 0.

Fixpoint digits_of (fuel : nat) (n : N) (acc : jsstring) : jsstring :=
  match fuel with
  | O => acc
  | S fuel' =>
      let acc' := (48 + n mod 10) :: acc in
      if n / 10 =? 0 then acc' else digits_of fuel' (n / 10) acc'
  end.

(** [n.toString()] for a non-negative integer. *)
Definition toString10 (n : N) : jsstring := digits_of (S (N.size_nat n)) n [].

(* --------------------------------------------------------------------- *)
(** ** UTF-8 *)
(* --------------------------------------------------------------------- *)

Definition REPLACEMENT : N := 0xFFFD.

Definition is_high_surrogate (u : N) : bool := (0xD800 <=? u) && (u <=? 0xDBFF).
Definition is_low_surrogate (u : N) : bool := (0xDC00 <=? u) && (u <=? 0xDFFF).

(** The byte values of the UTF-8 encoding of a string
    ([Buffer.from(s, 'utf8')]): a surrogate pair gives four bytes, a lone
    surrogate is replaced by U+FFFD. *)
Fixpoint utf8_encode (s : jsstring) : list N :=
  match s with
  | [] => []
  | u :: s' =>
      if u <? 0x80 then u :: utf8_encode s'
      else if u <? 0x800 then
        (0xC0 + u / 64) :: (0x80 + u mod 64) :: utf8_encode s'
      else if is_high_surrogate u then
        match s' with
        | l :: s'' =>
            if is_low_surrogate l then
              let cp := 0x10000 + (u - 0xD800) * 0x400 + (l - 0xDC00) in
              (0xF0 + cp / 262144) :: (0x80 + (cp / 4096) mod 64)
                :: (0x80 + (cp / 64) mod 64) :: (0x80 + cp mod 64)
                :: utf8_encode s''
            else 0xEF :: 0xBF :: 0xBD :: utf8_encode s'
        | [] => [0xEF; 0xBF; 0xBD]
        end
      else if is_low_surrogate u then 0xEF :: 0xBF :: 0xBD :: utf8_encode s'
      else
        (0xE0 + u / 4096) :: (0x80 + (u / 64) mod 64) :: (0x80 + u mod 64)
          :: utf8_encode s'
  end.

(** A multi-byte sequence under way: the code point so far, the number of
    continuation bytes still needed, and the range allowed for the next
    byte. *)
Record partial := Partial {
  code_point : N;
  bytes_needed : nat;
  lower : N;
  upper : N
}.

(** The decoder on a byte that starts a sequence. *)
Definition utf8_lead (b : N) : jsstring * option partial :=
  if b <=? 0x7F then ([b], None)
  else if (0xC2 <=? b) && (b <=? 0xDF) then
    ([], Some (Partial (b mod 32) 1 0x80 0xBF))
  else if (0xE0 <=? b) && (b <=? 0xEF) then
    ([], Some (Partial (b mod 16) 2
                 (if b =? 0xE0 then 0xA0 else 0x80)
                 (if b =? 0xED then 0x9F else 0xBF)))
  else if (0xF0 <=? b) && (b <=? 0xF4) then
    ([], Some (Partial (b mod 8) 3
                 (if b =? 0xF0 then 0x90 else 0x80)
                 (if b =? 0xF4 then 0x8F else 0xBF)))
  else ([REPLACEMENT], None).

(** The UTF-16 code units of a decoded code point. *)
Definition utf16_units (cp : N) : jsstring :=
  if cp <? 0x10000 then [cp]
  else [0xD800 + (cp - 0x10000) / 0x400; 0xDC00 + (cp - 0x10000) mod 0x400].

(** The UTF-8 decoder of [Buffer.prototype.toString('utf8')]: ill-formed
    input is replaced by U+FFFD, one per maximal ill-formed prefix, and the
    offending byte is processed again. *)
Fixpoint utf8_decode_from (st : option partial) (bs : list N) : jsstring :=
  match bs with
  | [] => match st with None => [] | Some _ => [REPLACEMENT] end
  | b :: bs' =>
      match st with
      | None =>
          let '(out, st') := utf8_lead b in out ++ utf8_decode_from st' bs'
      | Some p =>
          if (lower p <=? b) && (b <=? upper p) then
            let cp := code_point p * 64 + b mod 64 in
            match bytes_needed p with
            | S (S n) => utf8_decode_from (Some (Partial cp (S n) 0x80 0xBF)) bs'
            | _ => utf16_units cp ++ utf8_decode_from None bs'
            end
          else
            let '(out, st') := utf8_lead b in
            REPLACEMENT :: out ++ utf8_decode_from st' bs'
      end
  end.

Definition utf8_decode (bs : list N) : jsstring := utf8_decode_from None bs.

(** [buf.toString('utf8', 0, buf.length)]. *)
Definition Buffer_toString (buf : list byte) : jsstring :=
  utf8_decode (map Byte.to_N buf).

(** [Buffer.from(s, 'utf8')], the bytes [stream.write(s, 'utf8')] emits. *)
Definition Buffer_from (s : jsstring) : list byte :=
  map byte_of_N (utf8_encode s).

(** [Buffer.byteLength(s, 'utf8')]. *)
Definition Buffer_byteLength (s : jsstring) : nat := length (utf8_encode s).

Definition TWO_CRLF : jsstring := [13; 10; 13; 10].

(** [s.isWellFormed()]: 16-bit code units, every surrogate in a pair. *)
Fixpoint well_formed (s : jsstring) : bool :=
  match s with
  | [] => true
  | u :: s' =>
      if is_high_surrogate u then
        match s' with
        | l :: s'' => is_low_surrogate l && well_formed s''
        | [] => false
        end
      else negb (is_low_surrogate u) && (u <? 0x10000) && well_formed s'
  end.

(** Text of ASCII characters only. *)
Definition ascii_text (s : jsstring) : Prop := Forall (fun u => u < 128) s.

(* --------------------------------------------------------------------- *)
(** ** The wire format *)
(* --------------------------------------------------------------------- *)

(** The header of a frame whose body has [n] bytes. *)
Definition header (n : nat) : jsstring :=
  Content_Length ++ toString10 (N.of_nat n) ++ TWO_CRLF.

(** A well-formed frame: [Content-Length: <N>\r\n\r\n] and [N] bytes. *)
Definition frame (body : list byte) : list byte :=
  Buffer_from (header (length body)) ++ body.

(** Consecutive frames, with nothing between them. *)
Definition frames (bodies : list (list byte)) : list byte :=
  concat (map frame bodies).

(* ===================================================================== *)
(** * JSON values *)
(* ===================================================================== *)

(** The values [JSON.parse] returns. An object is the list of its
    properties in property order, with distinct names; numbers are the
    integers. *)
#[warnings="-register-all"] Inductive jsval :=
  | JNull
  | JBool (b : bool)
  | JNum (n : Z)
  | JStr (s : jsstring)
  | JArr (items : list jsval)
  | JObj (fields : list (jsstring * jsval)).

Definition object := list (jsstring * jsval).

(** [o[k]] on an object, [None] for [undefined]. *)
Fixpoint get_field (o : object) (k : jsstring) : option jsval :=
  match o with
  | [] => None
  | (k', v) :: o' => if jsstring_eqb k' k then Some v else get_field o' k
  end.

(** [o[k] = v]: an existing property keeps its place, a new one is added
    last. *)
Fixpoint set_field (o : object) (k : jsstring) (v : jsval) : object :=
  match o with
  | [] => [(k, v)]
  | (k', v') :: o' =>
      if jsstring_eqb k' k then (k, v) :: o' else (k', v') :: set_field o' k v
  end.

(** [v.k] for a value other than [null] and a property name [k] that no
    prototype defines (as [type] and [request_seq]): a primitive or an array
    has no such property. *)
Definition prop (v : jsval) (k : jsstring) : option jsval :=
  match v with
  | JObj o => get_field o k
  | _ => None
  end.

(** Reading a property of [null] throws a [TypeError]. *)
Definition is_null (v : jsval) : bool :=
  match v with JNull => true | _ => false end.

(** Truthiness ([ToBoolean]); [None] is [undefined]. *)
Definition truthy (v : option jsval) : bool :=
  match v with
  | None | Some JNull => false
  | Some (JBool b) => b
  | Some (JNum n) => negb (n =? 0)%Z
  | Some (JStr s) => match s with [] => false | _ => true end
  | Some (JArr _) | Some (JObj _) => true
  end.

(** [Object.keys(v).length] for a value that is neither [null] nor
    [undefined]. *)
Definition Object_keys_length (v : jsval) : nat :=
  match v with
  | JObj o => length o
  | JArr l => length l
  | JStr s => length s
  | _ => O
  end.

(** [v > 0] for a property declared [number]; [undefined > 0] is false. *)
Definition greater_than_zero (v : option jsval) : bool :=
  match v with
  | Some (JNum n) => (0 <? n)%Z
  | Some (JBool b) => b
  | _ => false
  end.

(** The kinds of message, ['request' | 'response' | 'event']. *)
Inductive MessageType := request | response | event.

Definition MessageType_string (t : MessageType) : jsstring :=
  match t with
  | request => str "request"
  | response => str "response"
  | event => str "event"
  end.

(** The object [sendRequest] builds before sending: [{ command }], with
    [arguments] when [args && Object.keys(args).length > 0]. *)
Definition request_object (command : jsstring) (args : option jsval) : object :=
  let req : object := [(str "command", JStr command)] in
  match args with
  | Some a =>
      if truthy args && (0 <? Object_keys_length a)%nat
      then set_field req (str "arguments") a
      else req
  | None => req
  end.

(** What is thrown inside [dispatch] and reported through [_onError]. *)
Inductive Error :=
  | SyntaxError (text : jsstring)
  | TypeError.

(* ===================================================================== *)
(** * A reference implementation of the platform's JSON *)
(* ===================================================================== *)

(** [JSON.stringify] and [JSON.parse] on [jsval], used to evaluate the
    transport on concrete frames. Numbers are integers: a literal with a
    fraction or an exponent has no image in [jsval] and is rejected. *)
Module JSON.

Definition hex_digit (d : N) : N := if d <? 10 then 48 + d else 87 + d.

(** One code unit inside a string literal. *)
Definition quote_unit (u : N) : jsstring :=
  if u =? 34 then [92; 34]
  else if u =? 92 then [92; 92]
  else if u =? 8 then [92; 98]
  else if u =? 12 then [92; 102]
  else if u =? 10 then [92; 110]
  else if u =? 13 then [92; 114]
  else if u =? 9 then [92; 116]
  else if u <? 32 then [92; 117; 48; 48; hex_digit (u / 16); hex_digit (u mod 16)]
  else [u].

Definition quote (s : jsstring) : jsstring :=
  34 :: flat_map quote_unit s ++ [34].

Definition number (n : Z) : jsstring :=
  if (n <? 0)%Z then 45 :: toString10 (Z.to_N (- n)) else toString10 (Z.to_N n).

Fixpoint stringify (v : jsval) : jsstring :=
  match v with
  | JNull => str "null"
  | JBool true => str "true"
  | JBool false => str "false"
  | JNum n => number n
  | JStr s => quote s
  | JArr items =>
      let fix elements (l : list jsval) : jsstring :=
        match l with
        | [] => []
        | [x] => stringify x
        | x :: l' => stringify x ++ 44 :: elements l'
        end in
      91 :: elements items ++ [93]
  | JObj fields =>
      let fix members (l : list (jsstring * jsval)) : jsstring :=
        match l with
        | [] => []
        | [(k, x)] => quote k ++ 58 :: stringify x
        | (k, x) :: l' => quote k ++ 58 :: stringify x ++ 44 :: members l'
        end in
      123 :: members fields ++ [125]
  end.

Definition is_ws (u : N) : bool :=
  (u =? 32) || (u =? 9) || (u =? 10) || (u =? 13).

Fixpoint skip_ws (s : jsstring) : jsstring :=
  match s with
  | u :: s' => if is_ws u then skip_ws s' else s
  | [] => []
  end.

Definition hex_value (u : N) : option N :=
  if is_digit u then Some (u - 48)
  else if (97 <=? u) && (u <=? 102) then Some (u - 87)
  else if (65 <=? u) && (u <=? 70) then Some (u - 55)
  else None.

Definition hex4 (a b c d : N) : option N :=
  match hex_value a, hex_value b, hex_value c, hex_value d with
  | Some x, Some y, Some z, Some w => Some (((x * 16 + y) * 16 + z) * 16 + w)
  | _, _, _, _ => None
  end.

Definition unescape (e : N) : option N :=
  if e =? 34 then Some 34
  else if e =? 92 then Some 92
  else if e =? 47 then Some 47
  else if e =? 98 then Some 8
  else if e =? 102 then Some 12
  else if e =? 110 then Some 10
  else if e =? 114 then Some 13
  else if e =? 116 then Some 9
  else None.

(** The rest of a string literal after its opening quote: the string and
    what follows the closing quote. *)
Fixpoint string_body (fuel : nat) (s acc : jsstring) : option (jsstring * jsstring) :=
  match fuel with
  | O => None
  | S fuel' =>
      match s with
      | [] => None
      | u :: s' =>
          if u =? 34 then Some (rev acc, s')
          else if u =? 92 then
            match s' with
            | e :: s'' =>
                if e =? 117 then
                  match s'' with
                  | a :: b :: c :: d :: s3 =>
                      match hex4 a b c d with
                      | Some x => string_body fuel' s3 (x :: acc)
                      | None => None
                      end
                  | _ => None
                  end
                else
                  match unescape e with
                  | Some x => string_body fuel' s'' (x :: acc)
                  | None => None
                  end
            | [] => None
            end
          else if u <? 32 then None
          else string_body fuel' s' (u :: acc)
      end
  end.

(** An integer literal without its sign: no leading zero, no fraction, no
    exponent. *)
Definition unsigned_literal (s : jsstring) : option (N * jsstring) :=
  match take_digits s with
  | [] => None
  | d :: ds =>
      let rest := skipn (length (d :: ds)) s in
      let fraction :=
        match rest with
        | u :: _ => (u =? 46) || (u =? 101) || (u =? 69)
        | [] => false
        end in
      if ((d =? 48) && negb (Nat.eqb (length ds) 0)) || fraction then None
      else Some (Number (d :: ds), rest)
  end.

Fixpoint value (fuel : nat) (s : jsstring) : option (jsval * jsstring) :=
  match fuel with
  | O => None
  | S fuel' =>
      match skip_ws s with
      | [] => None
      | u :: s' =>
          if u =? 123 then
            match skip_ws s' with
            | v :: s'' => if v =? 125 then Some (JObj [], s'') else members fuel' s' []
            | [] => None
            end
          else if u =? 91 then
            match skip_ws s' with
            | v :: s'' => if v =? 93 then Some (JArr [], s'') else elements fuel' s' []
            | [] => None
            end
          else if u =? 34 then
            match string_body (length s) s' [] with
            | Some (x, rest) => Some (JStr x, rest)
            | None => None
            end
          else if u =? 45 then
            match unsigned_literal s' with
            | Some (n, rest) => Some (JNum (- Z.of_N n), rest)
            | None => None
            end
          else if is_digit u then
            match unsigned_literal (u :: s') with
            | Some (n, rest) => Some (JNum (Z.of_N n), rest)
            | None => None
            end
          else
            match strip_prefix (str "true") (u :: s'),
                  strip_prefix (str "false") (u :: s'),
                  strip_prefix (str "null") (u :: s') with
            | Some rest, _, _ => Some (JBool true, rest)
            | _, Some rest, _ => Some (JBool false, rest)
            | _, _, Some rest => Some (JNull, rest)
            | _, _, _ => None
            end
      end
  end
with elements (fuel : nat) (s : jsstring) (acc : list jsval)
    : option (jsval * jsstring) :=
  match fuel with
  | O => None
  | S fuel' =>
      match value fuel' s with
      | Some (x, rest) =>
          match skip_ws rest with
          | u :: rest' =>
              if u =? 44 then elements fuel' rest' (x :: acc)
              else if u =? 93 then Some (JArr (rev (x :: acc)), rest')
              else None
          | [] => None
          end
      | None => None
      end
  end
with members (fuel : nat) (s : jsstring) (acc : object)
    : option (jsval * jsstring) :=
  match fuel with
  | O => None
  | S fuel' =>
      match skip_ws s with
      | q :: s1 =>
          if q =? 34 then
            match string_body (length s) s1 [] with
            | Some (k, s2) =>
                match skip_ws s2 with
                | c :: s3 =>
                    if c =? 58 then
                      match value fuel' s3 with
                      | Some (x, rest) =>
                          match skip_ws rest with
                          | u :: rest' =>
                              if u =? 44 then members fuel' rest' (set_field acc k x)
                              else if u =? 125 then Some (JObj (set_field acc k x), rest')
                              else None
                          | [] => None
                          end
                      | None => None
                      end
                    else None
                | [] => None
                end
            | None => None
            end
          else None
      | [] => None
      end
  end.

Definition parse (s : jsstring) : option jsval :=
  match value (2 * length s + 2) s with
  | Some (v, rest) => match skip_ws rest with [] => Some v | _ => None end
  | None => None
  end.

End JSON.

(* ===================================================================== *)
(** * The transport *)
(* ===================================================================== *)

Section Transport.

Context {Callback : Type}.

(** The platform's JSON: [JSON_parse] returns [None] where [JSON.parse]
    throws a [SyntaxError]. *)
Variable JSON_parse : jsstring -> option jsval.
Variable JSON_stringify : jsval -> jsstring.

(** What the transport does to its surroundings, in order. *)
Inductive Signal :=
  | onError (e : Error)
  | onEvent (ev : jsval)
  | onRequest (req : jsval)
  | invoke (clb : Callback) (resp : jsval)
  | console_error (command : option jsval).

(** The fields of [DebugAdapterProtocol]; [outputStream] holds the bytes
    written so far and [signals] what has been fired, called and logged. *)
Record DebugAdapterProtocol := mkProtocol {
  sequence : Z;
  pendingRequests : gmap Z Callback;
  rawData : list byte;
  contentLength : Z;
  outputStream : list byte;
  signals : list Signal
}.

(** [constructor()] followed by [connect]: nothing written or fired yet. *)
Definition constructor : DebugAdapterProtocol :=
  mkProtocol 1 ∅ [] (-1) [] [].

Definition set_sequence (st : DebugAdapterProtocol) (n : Z) :=
  mkProtocol n (pendingRequests st) (rawData st) (contentLength st)
    (outputStream st) (signals st).

Definition set_pendingRequests (st : DebugAdapterProtocol) (m : gmap Z Callback) :=
  mkProtocol (sequence st) m (rawData st) (contentLength st)
    (outputStream st) (signals st).

Definition set_rawData (st : DebugAdapterProtocol) (b : list byte) :=
  mkProtocol (sequence st) (pendingRequests st) b (contentLength st)
    (outputStream st) (signals st).

Definition set_contentLength (st : DebugAdapterProtocol) (n : Z) :=
  mkProtocol (sequence st) (pendingRequests st) (rawData st) n
    (outputStream st) (signals st).

(** [this.outputStream.write(s, 'utf8')]. *)
Definition write (st : DebugAdapterProtocol) (s : jsstring) :=
  mkProtocol (sequence st) (pendingRequests st) (rawData st) (contentLength st)
    (outputStream st ++ Buffer_from s) (signals st).

Definition emit (st : DebugAdapterProtocol) (sg : Signal) :=
  mkProtocol (sequence st) (pendingRequests st) (rawData st) (contentLength st)
    (outputStream st) (signals st ++ [sg]).

(** [sendMessage(typ, message)]; the message object is mutated, so it is
    returned with the state. *)
Definition sendMessage (st : DebugAdapterProtocol) (typ : MessageType)
    (message : object) : DebugAdapterProtocol * object :=
  let message := set_field message (str "type") (JStr (MessageType_string typ)) in
  let message := set_field message (str "seq") (JNum (sequence st)) in
  let st := set_sequence st (sequence st + 1)%Z in
  let json := JSON_stringify (JObj message) in
  let length := Buffer_byteLength json in
  let st := write st (Content_Length ++ toString10 (N.of_nat length) ++ TWO_CRLF) in
  let st := write st json in
  (st, message).

(** [sendResponse(response)]. *)
Definition sendResponse (st : DebugAdapterProtocol) (resp : object)
    : DebugAdapterProtocol * object :=
  if greater_than_zero (get_field resp (str "seq")) then
    (emit st (console_error (get_field resp (str "command"))), resp)
  else sendMessage st response resp.

(** [sendRequest(command, args, clb)]; [args] and [clb] may be absent. *)
Definition sendRequest (st : DebugAdapterProtocol) (command : jsstring)
    (args : option jsval) (clb : option Callback) : DebugAdapterProtocol :=
  let req := request_object command args in
  let '(st, req) := sendMessage st request req in
  match clb with
  | Some c =>
      match get_field req (str "seq") with
      | Some (JNum k) => set_pendingRequests st (<[k := c]> (pendingRequests st))
      | _ => st
      end
  | None => st
  end.

(** [this.pendingRequests.get(key)]: the table has number keys only. *)
Definition pending_get (st : DebugAdapterProtocol) (key : option jsval)
    : option Callback :=
  match key with
  | Some (JNum k) => pendingRequests st !! k
  | _ => None
  end.

Definition pending_delete (st : DebugAdapterProtocol) (key : option jsval) :=
  match key with
  | Some (JNum k) => set_pendingRequests st (delete k (pendingRequests st))
  | _ => st
  end.

(** [dispatch(body)]. *)
Definition dispatch (st : DebugAdapterProtocol) (body : jsstring)
    : DebugAdapterProtocol :=
  match JSON_parse body with
  | None => emit st (onError (SyntaxError body))
  | Some data =>
      if is_null data then emit st (onError TypeError)
      else
        match prop data (str "type") with
        | Some (JStr t) =>
            if jsstring_eqb t (str "event") then emit st (onEvent data)
            else if jsstring_eqb t (str "response") then
              let key := prop data (str "request_seq") in
              match pending_get st key with
              | Some clb => emit (pending_delete st key) (invoke clb data)
              | None => st
              end
            else if jsstring_eqb t (str "request") then emit st (onRequest data)
            else st
        | _ => st
        end
  end.

(** How one pass through the body of [while (true)] ends. *)
Inductive control := Continue | Break.

(** The body of the loop of [handleData]. *)
Definition handleData_body (st : DebugAdapterProtocol)
    : control * DebugAdapterProtocol :=
  if (0 <=? contentLength st)%Z then
    if (contentLength st <=? Z.of_nat (length (rawData st)))%Z then
      let n := Z.to_nat (contentLength st) in
      let message := Buffer_toString (firstn n (rawData st)) in
      let st := set_rawData st (skipn n (rawData st)) in
      let st := set_contentLength st (-1) in
      let st := if (0 <? length message)%nat then dispatch st message else st in
      (Continue, st)
    else (Break, st)
  else
    let s := Buffer_toString (rawData st) in
    match indexOf TWO_CRLF s with
    | Some idx =>
        match exec_Content_Length s with
        | Some (d :: ds) =>
            let st := set_contentLength st (Z.of_N (Number (d :: ds))) in
            let st := set_rawData st (skipn (idx + length TWO_CRLF) (rawData st)) in
            (Continue, st)
        | _ => (Break, st)
        end
    | None => (Break, st)
    end.

(** The loop, with a bound on the number of passes. *)
Fixpoint handleData_loop (fuel : nat) (st : DebugAdapterProtocol)
    : option DebugAdapterProtocol :=
  match fuel with
  | O => None
  | S fuel' =>
      match handleData_body st with
      | (Break, st') => Some st'
      | (Continue, st') => handleData_loop fuel' st'
      end
  end.

(** Every pass that continues lowers this measure ([handleData_body_measure]). *)
Definition passes (st : DebugAdapterProtocol) : nat :=
  2 * length (rawData st) + (if (0 <=? contentLength st)%Z then 1 else 0).

(** [handleData()]. *)
Definition handleData (st : DebugAdapterProtocol) : DebugAdapterProtocol :=
  match handleData_loop (S (passes st)) st with
  | Some st' => st'
  | None => st
  end.

(** The listener that [connect] installs on the ['data'] event. *)
Definition connect_data (st : DebugAdapterProtocol) (data : list byte)
    : DebugAdapterProtocol :=
  handleData (set_rawData st (rawData st ++ data)).

(** A call on the transport, or a chunk arriving from the stream. *)
Inductive call :=
  | call_sendRequest (command : jsstring) (args : option jsval) (clb : option Callback)
  | call_sendResponse (resp : object)
  | call_sendMessage (typ : MessageType) (message : object)
  | call_data (chunk : list byte).

Definition perform (st : DebugAdapterProtocol) (c : call) : DebugAdapterProtocol :=
  match c with
  | call_sendRequest command args clb => sendRequest st command args clb
  | call_sendResponse resp => fst (sendResponse st resp)
  | call_sendMessage typ message => fst (sendMessage st typ message)
  | call_data chunk => connect_data st chunk
  end.

(** The message a call hands to [sendMessage], as it is once sent. *)
Definition sent (st : DebugAdapterProtocol) (c : call) : option object :=
  match c with
  | call_sendRequest command args _ =>
      Some (snd (sendMessage st request (request_object command args)))
  | call_sendResponse resp =>
      if greater_than_zero (get_field resp (str "seq")) then None
      else Some (snd (sendMessage st response resp))
  | call_sendMessage typ message => Some (snd (sendMessage st typ message))
  | call_data _ => None
  end.

(** The [seq] of the messages sent by a series of calls, in order. *)
Fixpoint seq_values (st : DebugAdapterProtocol) (calls : list call)
    : list (option jsval) :=
  match calls with
  | [] => []
  | c :: calls' =>
      match sent st c with
      | Some m => get_field m (str "seq") :: seq_values (perform st c) calls'
      | None => seq_values (perform st c) calls'
      end
  end.

(** ** Notions used to state the properties *)

(** The data listener without the loop: the chunk joins the buffer. *)
Definition append (st : DebugAdapterProtocol) (data : list byte)
    : DebugAdapterProtocol :=
  set_rawData st (rawData st ++ data).

(** What the awaiting-body pass does with a body taken off the buffer. *)
Definition deliver (st : DebugAdapterProtocol) (body : list byte)
    : DebugAdapterProtocol :=
  if (0 <? length (Buffer_toString body))%nat
  then dispatch st (Buffer_toString body)
  else st.

(** The decoder is in step with a stream of frames: its buffer followed by
    the bytes still to come, [fut], is what remains of the frames [bodies],
    the first of them without its header when a body is awaited. *)
Definition Sync (st : DebugAdapterProtocol) (fut : list byte)
    (bodies : list (list byte)) : Prop :=
  ((contentLength st < 0)%Z /\ rawData st ++ fut = frames bodies) \/
  (exists b bs, bodies = b :: bs /\ contentLength st = Z.of_nat (length b) /\
                rawData st ++ fut = b ++ frames bs).

(** The bodies of well-formed JSON frames are not empty, and each is handed
    to [dispatch]. *)
Definition dispatch_body (st : DebugAdapterProtocol) (body : list byte)
    : DebugAdapterProtocol :=
  dispatch st (Buffer_toString body).

(** The sequence numbers [k], [k+1], ... ([n] of them) as [seq] values. *)
Definition numbered (k n : nat) : list (option jsval) :=
  map (fun i => Some (JNum (Z.of_nat i))) (seq k n).

(** The platform's JSON on one value: the text is not empty, is
    well-formed UTF-16, and parses to the value. *)
Definition JSON_round_trips (v : jsval) : Prop :=
  JSON_stringify v <> [] /\
  well_formed (JSON_stringify v) = true /\
  JSON_parse (JSON_stringify v) = Some v.

End Transport.

(* ===================================================================== *)
(** * Two transports, and the transport between calls *)
(* ===================================================================== *)

Section Exchange.

Context {Callback : Type}.
Variable JSON_parse : jsstring -> option jsval.
Variable JSON_stringify : jsval -> jsstring.

(** The messages a series of calls hands to [sendMessage], as sent. *)
Fixpoint sent_messages (st : @DebugAdapterProtocol Callback)
    (calls : list (@call Callback)) : list object :=
  match calls with
  | [] => []
  | c :: calls' =>
      let later :=
        sent_messages (perform JSON_parse JSON_stringify st c) calls' in
      match sent JSON_stringify st c with
      | Some m => m :: later
      | None => later
      end
  end.

(** The body [sendMessage] writes for a message: its JSON text in UTF-8. *)
Definition wire (m : object) : list byte :=
  Buffer_from (JSON_stringify (JObj m)).

(** Nothing for [handleData] to do: a body is awaited that the buffer does
    not hold yet, or a header is awaited and the buffered text has no
    separator or no [Content-Length] token. *)
Definition at_rest (st : @DebugAdapterProtocol Callback) : Prop :=
  ((0 <= contentLength st)%Z /\
   (Z.of_nat (length (rawData st)) < contentLength st)%Z) \/
  ((contentLength st < 0)%Z /\
   (indexOf TWO_CRLF (Buffer_toString (rawData st)) = None \/
    exec_Content_Length (Buffer_toString (rawData st)) = None)).

(** The fields the encoder owns, replaced. *)
Definition with_encoder (st : @DebugAdapterProtocol Callback) (n : Z)
    (out : list byte) : @DebugAdapterProtocol Callback :=
  mkProtocol n (pendingRequests st) (rawData st) (contentLength st) out
    (signals st).

(** Every key of the pending table is a sequence number already given
    out. *)
Definition pending_assigned (st : @DebugAdapterProtocol Callback) : Prop :=
  (1 <= sequence st)%Z /\
  forall k clb, pendingRequests st !! k = Some clb -> (1 <= k < sequence st)%Z.

(** The frames whose body is not empty. *)
Definition non_empty (bodies : list (list byte)) : list (list byte) :=
  List.filter (fun b => (0 <? length b)%nat) bodies.

End Exchange.

(* ===================================================================== *)
(** * Worked frames on the reference JSON *)
(* ===================================================================== *)

Module Scenario.

(** Callbacks are told apart by a number. *)
Definition Protocol := @DebugAdapterProtocol nat.

Definition fresh : Protocol := constructor.

Definition CRLF_CRLF : list byte := [x0d; x0a; x0d; x0a].

Definition utf8 (v : jsval) : list byte := Buffer_from (JSON.stringify v).

Definition initialized_event : jsval :=
  JObj [(str "seq", JNum 1); (str "type", JStr (str "event"));
        (str "event", JStr (str "initialized"))].

Definition evaluate_args : jsval := JObj [(str "expr", JStr (str "1+1"))].

Definition evaluate_response : jsval :=
  JObj [(str "seq", JNum 1); (str "type", JStr (str "response"));
        (str "request_seq", JNum 1); (str "command", JStr (str "evaluate"));
        (str "success", JBool true);
        (str "body", JObj [(str "result", JStr (str "2"))])].

Definition unknown_message : jsval :=
  JObj [(str "seq", JNum 4); (str "type", JStr (str "notice"))].

(** A header block without [Content-Length], then one well-formed frame. *)
Definition garbage_chunk : list byte :=
  ascii_bytes "Garbage" ++ CRLF_CRLF ++ frame (utf8 initialized_event).

(** A response object as a caller may hand it to [sendResponse]. *)
Definition response_with_seq (n : Z) : object :=
  [(str "seq", JNum n); (str "request_seq", JNum 3);
   (str "command", JStr (str "evaluate")); (str "success", JBool true)].

Definition two_frames : list (list byte) :=
  [utf8 initialized_event; utf8 evaluate_response].

Definition three_chunks : list (list byte) :=
  [take 5 (frames two_frames);
   take 60 (drop 5 (frames two_frames));
   drop 65 (frames two_frames)].

(** Three frames, the middle one with an empty body. *)
Definition frames_with_gap : list (list byte) :=
  [utf8 initialized_event; []; utf8 evaluate_response].

(** The answer of the peer to the request with [seq] 1. *)
Definition answer_to_1 : object :=
  [(str "seq", JNum 0); (str "request_seq", JNum 1);
   (str "command", JStr (str "evaluate")); (str "success", JBool true);
   (str "body", JObj [(str "result", JStr (str "2"))])].

(** A request, an event and a response sent one after the other, with
    data arriving in between. *)
Definition some_calls : list (@call nat) :=
  [call_sendRequest (str "evaluate") (Some evaluate_args) (Some 7%nat);
   call_data (frame (utf8 initialized_event));
   call_sendMessage event [(str "event", JStr (str "stopped"))];
   call_sendResponse (response_with_seq 2);
   call_sendResponse (response_with_seq 0)].

(** A header of three lines, the length with leading zeros and not at the
    start of its line, and a body of seven bytes. *)
Definition long_header : jsstring :=
  str "Host: localhost" ++ [13; 10] ++
  str "X-Content-Length: 007" ++ [13; 10] ++
  str "Content-Type: json".

Definition seven_bytes : list byte := ascii_bytes "[1,2,3]".

End Scenario.

(* ===================================================================== *)
(** * The installer: entries of the PATH value (build/win32/code.iss) *)
(* ===================================================================== *)

(** Strings of the installer's Pascal script are lists of code units, as
    above; positions count from 1. *)

(** [Pos(Substr, Str)]: the position of the first occurrence, [0] when there is
    none; an empty [Substr] is never found. *)
Definition Pos (Substr Str : list N) : nat :=
  match Substr with
  | [] => O
  | _ :: _ => match indexOf Substr Str with Some i => S i | None => O end
  end.

(** [Copy(Str, Index, Count)]. *)
Definition Copy (Str : list N) (Index Count : nat) : list N :=
  take Count (drop (Index - 1) Str).

(** The [repeat ... until Length(Text)=0] loop of [Explode], with a bound
    on the number of passes; [Dest] is the array passed by reference. *)
Fixpoint Explode_loop (fuel : nat) (Dest : list (list N))
    (Text Separator : list N) (i : nat) : option (list (list N)) :=
  match fuel with
  | O => None
  | S fuel' =>
      let Dest := resize (i + 1) [] Dest in
      let p := Pos Separator Text in
      if (0 <? p)%nat then
        let Dest := <[i := Copy Text 1 (p - 1)]> Dest in
        let Text := Copy Text (p + length Separator) (length Text) in
        let i := (i + 1)%nat in
        if Nat.eqb (length Text) 0 then Some Dest
        else Explode_loop fuel' Dest Text Separator i
      else
        let Dest := <[i := Text]> Dest in
        Some Dest
  end.

(** [Explode(Dest, Text, Separator)]: what [Dest] holds afterwards. *)
Definition Explode (Dest : list (list N)) (Text Separator : list N)
    : option (list (list N)) :=
  Explode_loop (S (length Text)) Dest Text Separator 0.

Definition semicolon : list N := [59].

(** [NeedsAddPath(Param)]; [OrigPath] is the [Path] value of the registry,
    [None] when [RegQueryStringValue] finds none. *)
Definition NeedsAddPath (OrigPath : option (list N)) (Param : list N) : bool :=
  match OrigPath with
  | None => true
  | Some path =>
      Nat.eqb (Pos (semicolon ++ Param ++ semicolon)
                   (semicolon ++ path ++ semicolon)) 0
  end.

Section Uninstall.

(** [CompareText], the platform's comparison without regard to case:
    [0] for equal. *)
Variable CompareText : list N -> list N -> Z.

(** The loop's test [CompareText(Parts[i], VSCodePath) <> 0]. *)
Definition kept (VSCodePath part : list N) : bool :=
  negb (CompareText part VSCodePath =? 0)%Z.

(** The [for] loop of [CurUninstallStepChanged]: [Parts[i]] for [i] from
    [0] to [GetArrayLength(Parts) - 1], here the head of [Parts] with its
    index [i]; [n] is [GetArrayLength(Parts)]. *)
Fixpoint NewPath_loop (Parts : list (list N)) (VSCodePath : list N)
    (i n : nat) (NewPath : list N) : list N :=
  match Parts with
  | [] => NewPath
  | part :: Parts' =>
      let NewPath :=
        if kept VSCodePath part then
          let NewPath := NewPath ++ part in
          if (i <? n - 1)%nat then NewPath ++ semicolon else NewPath
        else NewPath in
      NewPath_loop Parts' VSCodePath (S i) n NewPath
  end.

(** The [NewPath] written back for the entries [Parts]. *)
Definition NewPath (Parts : list (list N)) (VSCodePath : list N) : list N :=
  NewPath_loop Parts VSCodePath 0 (length Parts) [].

End Uninstall.

(** A PATH value to evaluate the installer's functions on, and a comparison
    that ignores the case of ASCII letters to stand for [CompareText]. *)
Module PathScenario.

Definition upper (c : N) : N :=
  if (97 <=? c) && (c <=? 122) then c - 32 else c.

Definition CompareText (a b : list N) : Z :=
  if jsstring_eqb (map upper a) (map upper b) then 0%Z else 1%Z.

Definition bin : list N := str "C:\Code\bin".

Definition path_value : list N := str "C:\Windows;C:\Code\bin;;D:\tools;".


End PathScenario.

(* ===================================================================== *)
(** * Properties of the text primitives *)
(* ===================================================================== *)

Example str_cafe_bytes :
  Buffer_byteLength (str "caf" ++ [0xE9]) = 5%nat /\
  length (str "caf" ++ [0xE9]) = 4%nat /\
  Buffer_toString (Buffer_from (str "caf" ++ [0xE9])) = str "caf" ++ [0xE9].
Proof. repeat split. Qed.

Example toString10_61 : toString10 61 = str "61" /\ Number (str "61") = 61.
Proof. split; reflexivity. Qed.

Lemma byte_to_of_N (n : N) : n < 256 -> Byte.to_N (byte_of_N n) = n.
Proof.
  intros Hn. unfold byte_of_N.
  destruct (Byte.of_N n) as [b|] eqn:E.
  - now apply Byte.to_of_N in E.
  - apply Byte.of_N_None_iff in E. lia.
Qed.

Lemma strip_prefix_app (p s : jsstring) : strip_prefix p (p ++ s) = Some s.
Proof.
  induction p as [|x p IH]; simpl; [reflexivity|].
  now rewrite N.eqb_refl.
Qed.

Lemma jsstring_eqb_eq (a b : jsstring) : jsstring_eqb a b = true <-> a = b.
Proof.
  revert b. induction a as [|x a IH]; intros [|y b]; simpl; split;
    try congruence; try reflexivity.
  - intros H. apply andb_true_iff in H as [Hx Hab].
    apply N.eqb_eq in Hx. apply IH in Hab. congruence.
  - intros H. injection H as -> ->. rewrite N.eqb_refl. simpl. now apply IH.
Qed.

Lemma jsstring_eqb_refl (a : jsstring) : jsstring_eqb a a = true.
Proof. now apply jsstring_eqb_eq. Qed.

(** *** Decimal numerals *)

Lemma Number_fold (ds : jsstring) : Number ds = fold_left Number_step ds 0.
Proof. reflexivity. Qed.

Lemma size_nat_gt (n : N) : n < 2 ^ N.of_nat (N.size_nat n).
Proof.
  destruct n as [|p]; simpl; [lia|].
  induction p as [p IH|p IH|]; simpl Pos.size_nat;
    rewrite ?Nat2N.inj_succ, ?N.pow_succ_r'; simpl N.of_nat; lia.
Qed.

Lemma Number_digits_of (fuel : nat) (n : N) (acc : jsstring) :
  n < 2 ^ N.of_nat fuel ->
  fold_left Number_step (digits_of fuel n acc) 0 = fold_left Number_step acc n.
Proof.
  revert n acc. induction fuel as [|fuel IH]; intros n acc Hn.
  - simpl in *. now replace n with 0 by lia.
  - simpl digits_of.
    rewrite Nat2N.inj_succ, N.pow_succ_r' in Hn.
    pose proof (N.div_mod n 10 ltac:(lia)) as Hdm.
    pose proof (N.mod_lt n 10 ltac:(lia)) as Hlt.
    remember (2 ^ N.of_nat fuel) as k eqn:Hk. clear Hk.
    revert Hdm Hlt. generalize (n mod 10) as r. intros r Hdm Hlt.
    destruct (n / 10 =? 0) eqn:E.
    + apply N.eqb_eq in E. rewrite E in Hdm. simpl. unfold Number_step at 2.
      f_equal. lia.
    + apply N.eqb_neq in E. rewrite IH.
      * simpl. unfold Number_step at 2. f_equal. lia.
      * revert E Hdm. generalize (n / 10) as q. intros; lia.
Qed.

(** [Number(n.toString())] is [n]. *)
Lemma Number_toString10 (n : N) : Number (toString10 n) = n.
Proof.
  rewrite Number_fold. unfold toString10. rewrite Number_digits_of.
  - reflexivity.
  - pose proof (size_nat_gt n) as H. rewrite Nat2N.inj_succ, N.pow_succ_r'. lia.
Qed.

Lemma digits_of_digits (fuel : nat) (n : N) (acc : jsstring) :
  Forall (fun u => is_digit u = true) acc ->
  Forall (fun u => is_digit u = true) (digits_of fuel n acc).
Proof.
  revert n acc. induction fuel as [|fuel IH]; intros n acc Hacc; simpl; [assumption|].
  assert (Hd : Forall (fun u => is_digit u = true) ((48 + n mod 10) :: acc)).
  { constructor; [|assumption].
    pose proof (N.mod_lt n 10 ltac:(lia)) as Hlt. revert Hlt.
    generalize (n mod 10) as r. intros r Hlt. unfold is_digit.
    apply andb_true_iff. split; apply N.leb_le; lia. }
  destruct (n / 10 =? 0); [assumption|]. now apply IH.
Qed.

Lemma digits_of_nonempty (fuel : nat) (n : N) (acc : jsstring) :
  (0 < fuel)%nat -> digits_of fuel n acc <> [].
Proof.
  revert n acc. induction fuel as [|fuel IH]; intros n acc Hf; [lia|].
  simpl. destruct (n / 10 =? 0); [discriminate|].
  destruct fuel as [|fuel']; [simpl; discriminate|]. apply IH. lia.
Qed.

Lemma toString10_digits (n : N) :
  Forall (fun u => is_digit u = true) (toString10 n).
Proof. apply digits_of_digits. constructor. Qed.

Lemma toString10_nonempty (n : N) : toString10 n <> [].
Proof. apply digits_of_nonempty. lia. Qed.

Lemma take_digits_app (ds rest : jsstring) :
  Forall (fun u => is_digit u = true) ds ->
  match rest with [] => True | u :: _ => is_digit u = false end ->
  take_digits (ds ++ rest) = ds.
Proof.
  intros Hds Hrest. induction Hds as [|d ds Hd _ IH]; simpl.
  - destruct rest as [|u rest]; [reflexivity|]. simpl. now rewrite Hrest.
  - now rewrite Hd, IH.
Qed.

(** *** ASCII text in UTF-8 *)

Lemma utf8_encode_ascii (s : jsstring) : ascii_text s -> utf8_encode s = s.
Proof.
  intros H. induction H as [|u s Hu _ IH]; simpl; [reflexivity|].
  apply N.ltb_lt in Hu. now rewrite Hu, IH.
Qed.

Lemma utf8_decode_ascii_app (s : jsstring) (bs : list N) :
  ascii_text s -> utf8_decode (s ++ bs) = s ++ utf8_decode bs.
Proof.
  intros H. unfold utf8_decode. induction H as [|u s Hu _ IH]; simpl; [reflexivity|].
  unfold utf8_lead. assert (E : (u <=? 127) = true) by (apply N.leb_le; lia).
  rewrite E. simpl. now rewrite IH.
Qed.

Lemma to_N_Buffer_from_ascii (s : jsstring) :
  ascii_text s -> map Byte.to_N (Buffer_from s) = s.
Proof.
  intros H. unfold Buffer_from. rewrite utf8_encode_ascii by assumption.
  induction H as [|u s Hu _ IH]; simpl; [reflexivity|].
  rewrite byte_to_of_N by lia. now rewrite IH.
Qed.

Lemma Buffer_toString_ascii_app (s : jsstring) (rest : list byte) :
  ascii_text s ->
  Buffer_toString (Buffer_from s ++ rest) = s ++ Buffer_toString rest.
Proof.
  intros H. unfold Buffer_toString.
  rewrite map_app, to_N_Buffer_from_ascii by assumption.
  now apply utf8_decode_ascii_app.
Qed.

Lemma Buffer_from_length_ascii (s : jsstring) :
  ascii_text s -> length (Buffer_from s) = length s.
Proof.
  intros H. unfold Buffer_from. rewrite length_map.
  now rewrite utf8_encode_ascii.
Qed.

(** *** Decoding never loses a byte entirely *)

Lemma utf16_units_nonempty (cp : N) : utf16_units cp <> [].
Proof. unfold utf16_units. destruct (cp <? 65536); discriminate. Qed.

Lemma utf8_decode_from_partial_nonempty (p : partial) (bs : list N) :
  utf8_decode_from (Some p) bs <> [].
Proof.
  revert p. induction bs as [|b bs IH]; intros p; simpl; [discriminate|].
  destruct ((lower p <=? b) && (b <=? upper p)).
  - destruct (bytes_needed p) as [|[|n]].
    + intros H. apply app_eq_nil in H as [H _]. now apply utf16_units_nonempty in H.
    + intros H. apply app_eq_nil in H as [H _]. now apply utf16_units_nonempty in H.
    + apply IH.
  - destruct (utf8_lead b). discriminate.
Qed.

Lemma utf8_decode_nonempty (bs : list N) : bs <> [] -> utf8_decode bs <> [].
Proof.
  destruct bs as [|b bs]; [congruence|]. intros _.
  unfold utf8_decode. simpl. unfold utf8_lead.
  repeat match goal with
         | |- context [if ?c then _ else _] => destruct c
         end; simpl; try discriminate;
    apply utf8_decode_from_partial_nonempty.
Qed.

Lemma Buffer_toString_nonempty (b : list byte) :
  b <> [] -> (0 <? length (Buffer_toString b))%nat = true.
Proof.
  intros Hb. apply Nat.ltb_lt. unfold Buffer_toString.
  assert (H : utf8_decode (map Byte.to_N b) <> []).
  { apply utf8_decode_nonempty. destruct b; [congruence|discriminate]. }
  destruct (utf8_decode (map Byte.to_N b)); [congruence|simpl; lia].
Qed.

(** *** UTF-8 round trip *)

Ltac arith := zify; Z.to_euclidean_division_equations; lia.

Ltac decide_test :=
  match goal with
  | |- context [?a <=? ?b] =>
      first [ replace (a <=? b) with true by (symmetry; apply N.leb_le; arith)
            | replace (a <=? b) with false by (symmetry; apply N.leb_gt; arith) ]
  | |- context [?a <? ?b] =>
      first [ replace (a <? b) with true by (symmetry; apply N.ltb_lt; arith)
            | replace (a <? b) with false by (symmetry; apply N.ltb_ge; arith) ]
  | |- context [?a =? ?b] =>
      first [ replace (a =? b) with true by (symmetry; apply N.eqb_eq; arith)
            | replace (a =? b) with false by (symmetry; apply N.eqb_neq; arith) ]
  end.

Lemma utf8_decode_2 (q r : N) (rest : list N) :
  2 <= q < 32 -> r < 64 ->
  utf8_decode_from None ((192 + q) :: (128 + r) :: rest) =
  (q * 64 + r) :: utf8_decode_from None rest.
Proof.
  intros Hq Hr. cbn [utf8_decode_from]. unfold utf8_lead.
  repeat (decide_test; cbn [andb orb negb]).
  cbn [app lower upper code_point bytes_needed].
  repeat (decide_test; cbn [andb orb negb]).
  unfold utf16_units. repeat (decide_test; cbn [andb orb negb]).
  cbn [app]. f_equal. arith.
Qed.

Ltac run_decoder :=
  cbn [utf8_decode_from]; unfold utf8_lead;
  repeat (decide_test; cbn [andb orb negb]);
  cbn [app lower upper code_point bytes_needed].

Lemma utf8_decode_3 (a b c : N) (rest : list N) :
  a < 16 -> b < 64 -> c < 64 ->
  2048 <= a * 4096 + b * 64 + c ->
  ~ (0xD800 <= a * 4096 + b * 64 + c <= 0xDFFF) ->
  utf8_decode_from None ((224 + a) :: (128 + b) :: (128 + c) :: rest) =
  (a * 4096 + b * 64 + c) :: utf8_decode_from None rest.
Proof.
  intros Ha Hb Hc Hlo Hsur.
  run_decoder.
  destruct (N.eq_dec a 0) as [->|Ha0]; [|destruct (N.eq_dec a 13) as [->|Ha13]];
    repeat (decide_test; cbn [andb orb negb]);
    cbn [app lower upper code_point bytes_needed];
    run_decoder; unfold utf16_units; repeat (decide_test; cbn [andb orb negb]);
    cbn [app]; f_equal; arith.
Qed.

Lemma utf8_decode_4 (a b c d : N) (rest : list N) :
  a < 8 -> b < 64 -> c < 64 -> d < 64 ->
  0x10000 <= a * 262144 + b * 4096 + c * 64 + d <= 0x10FFFF ->
  utf8_decode_from None
    ((240 + a) :: (128 + b) :: (128 + c) :: (128 + d) :: rest) =
  utf16_units (a * 262144 + b * 4096 + c * 64 + d) ++ utf8_decode_from None rest.
Proof.
  intros Ha Hb Hc Hd Hcp.
  run_decoder.
  destruct (N.eq_dec a 0) as [->|Ha0]; [|destruct (N.eq_dec a 4) as [->|Ha4]];
    repeat (decide_test; cbn [andb orb negb]);
    cbn [app lower upper code_point bytes_needed];
    run_decoder; run_decoder; f_equal; f_equal; arith.
Qed.

Lemma utf16_units_pair (u l : N) :
  is_high_surrogate u = true -> is_low_surrogate l = true ->
  utf16_units (0x10000 + (u - 0xD800) * 0x400 + (l - 0xDC00)) = [u; l].
Proof.
  unfold is_high_surrogate, is_low_surrogate, utf16_units.
  intros Hu Hl. apply andb_true_iff in Hu as [Hu1 Hu2], Hl as [Hl1 Hl2].
  apply N.leb_le in Hu1, Hu2, Hl1, Hl2.
  decide_test. f_equal; [|f_equal]; arith.
Qed.

Lemma utf8_round_trip_bytes (s : jsstring) :
  well_formed s = true ->
  utf8_decode (utf8_encode s) = s /\ Forall (fun b => b < 256) (utf8_encode s).
Proof.
  unfold utf8_decode.
  remember (length s) as n eqn:Hn. revert s Hn.
  induction n as [n IH] using lt_wf_ind. intros s -> Hwf.
  destruct s as [|u s']; [split; [reflexivity|constructor]|].
  cbn [well_formed utf8_encode] in *.
  destruct (is_high_surrogate u) eqn:Hhigh.
  - destruct s' as [|l s'']; [discriminate|].
    apply andb_true_iff in Hwf as [Hlow Hwf].
    destruct (IH (length s'') ltac:(simpl; lia) s'' eq_refl Hwf) as [IHd IHb].
    rewrite Hlow.
    pose proof Hhigh as Hh. pose proof Hlow as Hl.
    unfold is_high_surrogate in Hh. unfold is_low_surrogate in Hl.
    apply andb_true_iff in Hh as [Hu1 Hu2], Hl as [Hl1 Hl2].
    apply N.leb_le in Hu1, Hu2, Hl1, Hl2.
    repeat decide_test.
    set (cp := 65536 + (u - 55296) * 1024 + (l - 56320)).
    assert (Hcp : 65536 <= cp <= 1114111) by (unfold cp; lia).
    split.
    + rewrite (utf8_decode_4 (cp / 262144) ((cp / 4096) mod 64)
                 ((cp / 64) mod 64) (cp mod 64)); try arith.
      replace (cp / 262144 * 262144 + (cp / 4096) mod 64 * 4096
               + (cp / 64) mod 64 * 64 + cp mod 64) with cp by arith.
      unfold cp. rewrite utf16_units_pair by assumption.
      cbn [app]. now rewrite IHd.
    + repeat (constructor; [arith|]). assumption.
  - apply andb_true_iff in Hwf as [Hwf Hrest].
    apply andb_true_iff in Hwf as [Hnl Hu].
    apply N.ltb_lt in Hu. apply negb_true_iff in Hnl. rewrite Hnl.
    destruct (IH (length s') ltac:(simpl; lia) s' eq_refl Hrest) as [IHd IHb].
    assert (Hns : ~ (55296 <= u <= 57343)).
    { unfold is_high_surrogate in Hhigh. unfold is_low_surrogate in Hnl.
      apply andb_false_iff in Hhigh, Hnl.
      rewrite !N.leb_gt in Hhigh, Hnl. lia. }
    destruct (u <? 128) eqn:E1; [|destruct (u <? 2048) eqn:E2].
    + apply N.ltb_lt in E1. split.
      * cbn [utf8_decode_from]. unfold utf8_lead. decide_test.
        cbn [app]. now rewrite IHd.
      * constructor; [lia|assumption].
    + apply N.ltb_ge in E1. apply N.ltb_lt in E2. split.
      * rewrite (utf8_decode_2 (u / 64) (u mod 64)) by arith.
        rewrite IHd. f_equal. arith.
      * repeat (constructor; [arith|]). assumption.
    + apply N.ltb_ge in E1, E2. split.
      * rewrite (utf8_decode_3 (u / 4096) ((u / 64) mod 64) (u mod 64)) by arith.
        rewrite IHd. f_equal. arith.
      * repeat (constructor; [arith|]). assumption.
Qed.

Lemma Buffer_round_trip (s : jsstring) :
  well_formed s = true -> Buffer_toString (Buffer_from s) = s.
Proof.
  intros Hwf. destruct (utf8_round_trip_bytes s Hwf) as [Hd Hb].
  unfold Buffer_toString, Buffer_from. rewrite map_map.
  rewrite <- Hd at 2. f_equal.
  clear Hd Hwf. induction Hb as [|b bs Hlt _ IH]; cbn [map]; [reflexivity|].
  rewrite byte_to_of_N by assumption. now rewrite IH.
Qed.

(* ===================================================================== *)
(** * Properties of the wire format *)
(* ===================================================================== *)

Lemma is_digit_bounds (u : N) : is_digit u = true -> 48 <= u <= 57.
Proof.
  unfold is_digit. intros H. apply andb_true_iff in H as [H1 H2].
  apply N.leb_le in H1, H2. lia.
Qed.

Lemma Content_Length_ascii : ascii_text Content_Length.
Proof. unfold ascii_text. cbv. repeat constructor. Qed.

Lemma Content_Length_no_CR : Forall (fun u => u <> 13) Content_Length.
Proof. unfold Content_Length. cbn. repeat (constructor; [discriminate|]). constructor. Qed.

Lemma digits_ascii (ds : jsstring) :
  Forall (fun u => is_digit u = true) ds -> ascii_text ds.
Proof.
  intros H. eapply Forall_impl; [exact H|].
  intros u Hu. apply is_digit_bounds in Hu. lia.
Qed.

Lemma digits_no_CR (ds : jsstring) :
  Forall (fun u => is_digit u = true) ds -> Forall (fun u => u <> 13) ds.
Proof.
  intros H. eapply Forall_impl; [exact H|].
  intros u Hu. apply is_digit_bounds in Hu. lia.
Qed.

Lemma header_ascii (n : nat) : ascii_text (header n).
Proof.
  unfold header, ascii_text. rewrite !Forall_app. repeat split.
  - apply Content_Length_ascii.
  - apply digits_ascii, toString10_digits.
  - unfold TWO_CRLF. repeat (constructor; [lia|]). constructor.
Qed.

Lemma strip_prefix_TWO_CRLF_no_CR (u : N) (s : jsstring) :
  u <> 13 -> strip_prefix TWO_CRLF (u :: s) = None.
Proof.
  intros Hu. unfold TWO_CRLF. cbn [strip_prefix].
  destruct (13 =? u) eqn:E; [|reflexivity].
  apply N.eqb_eq in E. congruence.
Qed.

(** The separator is first found right after text without carriage
    return. *)
Lemma indexOf_TWO_CRLF_app (a rest : jsstring) :
  Forall (fun u => u <> 13) a ->
  indexOf TWO_CRLF (a ++ TWO_CRLF ++ rest) = Some (length a).
Proof.
  intros Ha. induction Ha as [|u a Hu _ IH].
  - reflexivity.
  - rewrite <- app_comm_cons.
    change (indexOf TWO_CRLF (u :: a ++ TWO_CRLF ++ rest))
      with (match strip_prefix TWO_CRLF (u :: a ++ TWO_CRLF ++ rest) with
            | Some _ => Some O
            | None => S <$> indexOf TWO_CRLF (a ++ TWO_CRLF ++ rest)
            end).
    rewrite strip_prefix_TWO_CRLF_no_CR by assumption. now rewrite IH.
Qed.

(** No separator in what is not yet a whole header. *)
Lemma indexOf_TWO_CRLF_partial (a p q : jsstring) :
  Forall (fun u => u <> 13) a ->
  p ++ q = a ++ TWO_CRLF -> q <> [] ->
  indexOf TWO_CRLF p = None.
Proof.
  intros Ha. revert p. induction Ha as [|u a Hu _ IH]; intros p Hpq Hq.
  - simpl in Hpq. unfold TWO_CRLF in Hpq.
    destruct p as [|p1 [|p2 [|p3 [|p4 p]]]]; simpl in Hpq.
    + reflexivity.
    + injection Hpq as -> _. reflexivity.
    + injection Hpq as -> -> _. reflexivity.
    + injection Hpq as -> -> -> _. reflexivity.
    + injection Hpq as _ _ _ _ Hnil.
      apply app_eq_nil in Hnil as [_ ->]. congruence.
  - destruct p as [|x p].
    + reflexivity.
    + rewrite <- !app_comm_cons in Hpq. injection Hpq as -> Hpq.
      change (indexOf TWO_CRLF (u :: p))
        with (match strip_prefix TWO_CRLF (u :: p) with
              | Some _ => Some O
              | None => S <$> indexOf TWO_CRLF p
              end).
      rewrite strip_prefix_TWO_CRLF_no_CR by assumption.
      now rewrite (IH p Hpq Hq).
Qed.

Lemma header_no_CR (n : nat) :
  Forall (fun u => u <> 13) (Content_Length ++ toString10 (N.of_nat n)).
Proof.
  rewrite Forall_app. split.
  - apply Content_Length_no_CR.
  - apply digits_no_CR, toString10_digits.
Qed.

Lemma indexOf_header (n : nat) (rest : jsstring) :
  indexOf TWO_CRLF (header n ++ rest) =
  Some (length (Content_Length ++ toString10 (N.of_nat n))).
Proof.
  unfold header. rewrite <- !app_assoc.
  rewrite (app_assoc Content_Length). apply indexOf_TWO_CRLF_app, header_no_CR.
Qed.

Lemma exec_Content_Length_header (n : nat) (rest : jsstring) :
  exec_Content_Length (header n ++ rest) = Some (toString10 (N.of_nat n)).
Proof.
  unfold header. rewrite <- !app_assoc.
  pose proof (toString10_nonempty (N.of_nat n)) as Hne.
  pose proof (toString10_digits (N.of_nat n)) as Hds.
  destruct (Content_Length ++ toString10 (N.of_nat n) ++ TWO_CRLF ++ rest)
    as [|c s] eqn:E.
  { unfold Content_Length in E. discriminate. }
  unfold exec_Content_Length; fold exec_Content_Length.
  rewrite <- E, strip_prefix_app.
  rewrite take_digits_app by (assumption || reflexivity).
  destruct (toString10 (N.of_nat n)); [congruence|reflexivity].
Qed.

Lemma header_length (n : nat) :
  length (header n) =
  (length (Content_Length ++ toString10 (N.of_nat n)) + length TWO_CRLF)%nat.
Proof. unfold header. rewrite !length_app. lia. Qed.

(* ===================================================================== *)
(** * Properties of the transport *)
(* ===================================================================== *)

Arguments str : simpl never.
Arguments Content_Length : simpl never.
Arguments TWO_CRLF : simpl never.
Arguments Buffer_from : simpl never.
Arguments Buffer_toString : simpl never.
Arguments toString10 : simpl never.
Arguments header : simpl never.
Arguments frame : simpl never.
Arguments frames : simpl never.

Section TransportProperties.

Context {Callback : Type}.
Variable JSON_parse : jsstring -> option jsval.

Local Abbreviation State := (@DebugAdapterProtocol Callback).

(** ** What [dispatch] leaves alone *)

Lemma pending_delete_decoder (st : State) (key : option jsval) :
  rawData (pending_delete st key) = rawData st /\
  contentLength (pending_delete st key) = contentLength st /\
  sequence (pending_delete st key) = sequence st /\
  outputStream (pending_delete st key) = outputStream st /\
  signals (pending_delete st key) = signals st.
Proof. destruct key as [[]|]; simpl; auto. Qed.

Lemma dispatch_frame (st : State) (body : jsstring) :
  rawData (dispatch JSON_parse st body) = rawData st /\
  contentLength (dispatch JSON_parse st body) = contentLength st /\
  sequence (dispatch JSON_parse st body) = sequence st /\
  outputStream (dispatch JSON_parse st body) = outputStream st.
Proof.
  unfold dispatch.
  destruct (JSON_parse body) as [data|]; [|simpl; auto].
  destruct (is_null data); [simpl; auto|].
  destruct (prop data _) as [[| | |t| |]|]; simpl; auto.
  destruct (jsstring_eqb t _); [simpl; auto|].
  destruct (jsstring_eqb t _).
  - destruct (pending_get _ _); [|auto].
    pose proof (pending_delete_decoder st (prop data (str "request_seq"))).
    simpl. intuition.
  - destruct (jsstring_eqb t _); simpl; auto.
Qed.

(** ** The loop of [handleData] *)

Lemma handleData_body_Break (st st' : State) :
  handleData_body JSON_parse st = (Break, st') -> st' = st.
Proof.
  unfold handleData_body.
  destruct (0 <=? contentLength st)%Z.
  - destruct (contentLength st <=? _)%Z; congruence.
  - destruct (indexOf _ _); [|congruence].
    destruct (exec_Content_Length _) as [[|d ds]|]; congruence.
Qed.

Lemma indexOf_Some_nonempty (p s : jsstring) (i : nat) :
  p <> [] -> indexOf p s = Some i -> s <> [].
Proof.
  intros Hp H ->. destruct p as [|x p]; [congruence|]. discriminate.
Qed.

Lemma Buffer_toString_nil : Buffer_toString [] = [].
Proof. reflexivity. Qed.

(** A pass that continues takes bytes off the buffer or leaves the
    awaiting-body state. *)
Lemma handleData_body_Continue (st st' : State) :
  handleData_body JSON_parse st = (Continue, st') ->
  (length (rawData st') < length (rawData st))%nat \/
  ((0 <= contentLength st)%Z /\ contentLength st' = (-1)%Z /\
   (length (rawData st') <= length (rawData st))%nat).
Proof.
  unfold handleData_body.
  destruct (0 <=? contentLength st)%Z eqn:Hstate.
  - destruct (contentLength st <=? _)%Z; [|congruence].
    intros H. injection H as <-. right.
    apply Z.leb_le in Hstate. split; [assumption|].
    match goal with
    | |- context [if ?c then dispatch _ ?s ?m else ?s] =>
        assert (Hd : rawData (if c then dispatch JSON_parse s m else s) = rawData s /\
                     contentLength (if c then dispatch JSON_parse s m else s)
                     = contentLength s)
          by (destruct c; [pose proof (dispatch_frame s m); tauto | tauto]);
        destruct Hd as [-> ->]
    end.
    simpl. split; [reflexivity|]. rewrite length_skipn. lia.
  - destruct (indexOf _ _) as [idx|] eqn:Hidx; [|congruence].
    destruct (exec_Content_Length _) as [[|d ds]|]; try congruence.
    intros H. injection H as <-. left. simpl.
    assert (Hne : rawData st <> []).
    { intros Hnil. rewrite Hnil, Buffer_toString_nil in Hidx. discriminate. }
    rewrite length_skipn. destruct (rawData st); [congruence|]. simpl. lia.
Qed.

Lemma handleData_body_passes (st st' : State) :
  handleData_body JSON_parse st = (Continue, st') ->
  (passes st' < passes st)%nat.
Proof.
  intros H. pose proof H as Hc. apply handleData_body_Continue in Hc.
  unfold passes. destruct Hc as [Hlt | (Hge & Hm1 & Hle)].
  - destruct (0 <=? contentLength st')%Z, (0 <=? contentLength st)%Z; lia.
  - rewrite Hm1. apply Z.leb_le in Hge. rewrite Hge. simpl. lia.
Qed.

Lemma handleData_loop_enough (fuel : nat) (st : State) :
  (passes st < fuel)%nat ->
  exists st', handleData_loop JSON_parse fuel st = Some st' /\
              handleData_body JSON_parse st' = (Break, st').
Proof.
  revert st. induction fuel as [|fuel IH]; intros st Hf; [lia|].
  simpl. destruct (handleData_body JSON_parse st) as [[|] st1] eqn:E.
  - apply IH. apply handleData_body_passes in E. lia.
  - exists st1. split; [reflexivity|].
    apply handleData_body_Break in E as E'. now subst st1.
Qed.

Lemma handleData_loop_mono (fuel fuel' : nat) (st st' : State) :
  handleData_loop JSON_parse fuel st = Some st' -> (fuel <= fuel')%nat ->
  handleData_loop JSON_parse fuel' st = Some st'.
Proof.
  revert fuel' st. induction fuel as [|fuel IH]; intros fuel' st H Hle;
    [discriminate|].
  destruct fuel' as [|fuel']; [lia|]. simpl in *.
  destruct (handleData_body JSON_parse st) as [[|] st1]; [|assumption].
  apply IH; [assumption|lia].
Qed.

Lemma handleData_loop_handleData (fuel : nat) (st st' : State) :
  handleData_loop JSON_parse fuel st = Some st' -> handleData JSON_parse st = st'.
Proof.
  intros H. unfold handleData.
  destruct (handleData_loop_enough (S (passes st)) st) as (st2 & H2 & _); [lia|].
  rewrite H2.
  destruct (Nat.le_ge_cases fuel (S (passes st))) as [Hle|Hle].
  - apply (handleData_loop_mono _ _ _ _ H) in Hle. congruence.
  - apply (handleData_loop_mono _ _ _ _ H2) in Hle. congruence.
Qed.

(** [handleData] unrolls as the [while (true)] loop does. *)
Lemma handleData_unfold (st : State) :
  handleData JSON_parse st =
  match handleData_body JSON_parse st with
  | (Break, st') => st'
  | (Continue, st') => handleData JSON_parse st'
  end.
Proof.
  destruct (handleData_loop_enough (S (passes st)) st) as (st2 & H2 & _); [lia|].
  rewrite (handleData_loop_handleData _ _ _ H2).
  simpl in H2. destruct (handleData_body JSON_parse st) as [[|] st1].
  - symmetry. eapply handleData_loop_handleData. eassumption.
  - congruence.
Qed.

Lemma handleData_Break (st : State) :
  handleData_body JSON_parse (handleData JSON_parse st) =
  (Break, handleData JSON_parse st).
Proof.
  destruct (handleData_loop_enough (S (passes st)) st) as (st2 & H2 & Hb); [lia|].
  now rewrite (handleData_loop_handleData _ _ _ H2).
Qed.

(** C9. The decode loop of [handleData] terminates from every buffer
    content and every recorded body length: each pass either takes at least
    one byte off the buffer, or switches from awaiting-body to
    awaiting-header, or leaves the loop; so a number of passes bounded by
    the buffer reaches the [break], and [handleData] is the state there. *)
Theorem handleData_terminates :
  (forall st st' : State,
      handleData_body JSON_parse st = (Continue, st') ->
      (length (rawData st') < length (rawData st))%nat \/
      ((0 <= contentLength st)%Z /\ contentLength st' = (-1)%Z /\
       (length (rawData st') <= length (rawData st))%nat)) /\
  (forall st : State,
      exists st',
        (forall fuel, (2 * length (rawData st) + 1 < fuel)%nat ->
           handleData_loop JSON_parse fuel st = Some st') /\
        handleData_body JSON_parse st' = (Break, st') /\
        handleData JSON_parse st = st').
Proof.
  split; [exact handleData_body_Continue|].
  intros st.
  destruct (handleData_loop_enough (S (passes st)) st) as (st' & H & Hb); [lia|].
  exists st'. repeat split.
  - intros fuel Hf. apply (handleData_loop_mono _ _ _ _ H).
    unfold passes. destruct (0 <=? contentLength st)%Z; lia.
  - assumption.
  - eapply handleData_loop_handleData. eassumption.
Qed.

(** ** Single passes on well-formed input *)

Lemma set_rawData_id (st : State) : set_rawData st (rawData st) = st.
Proof. now destruct st. Qed.

Lemma append_nil (st : State) : append st [] = st.
Proof. unfold append. rewrite app_nil_r. apply set_rawData_id. Qed.

Lemma append_append (st : State) (c1 c2 : list byte) :
  append (append st c1) c2 = append st (c1 ++ c2).
Proof. unfold append, set_rawData. simpl. now rewrite app_assoc. Qed.

Lemma dispatch_set_rawData (st : State) (r : list byte) (body : jsstring) :
  dispatch JSON_parse (set_rawData st r) body =
  set_rawData (dispatch JSON_parse st body) r.
Proof.
  unfold dispatch.
  destruct (JSON_parse body) as [data|]; [|reflexivity].
  destruct (is_null data); [reflexivity|].
  destruct (prop data (str "type")) as [[| | |t| |]|]; try reflexivity.
  destruct (jsstring_eqb t _); [reflexivity|].
  destruct (jsstring_eqb t _).
  - destruct (prop data (str "request_seq")) as [[| |k| | |]|]; simpl;
      try reflexivity.
    destruct (pendingRequests st !! k); reflexivity.
  - destruct (jsstring_eqb t _); reflexivity.
Qed.

Lemma deliver_set_rawData (st : State) (r body : list byte) :
  deliver JSON_parse (set_rawData st r) body = set_rawData (deliver JSON_parse st body) r.
Proof.
  unfold deliver. destruct (0 <? _)%nat; [|reflexivity].
  apply dispatch_set_rawData.
Qed.

Lemma deliver_frame (st : State) (body : list byte) :
  rawData (deliver JSON_parse st body) = rawData st /\
  contentLength (deliver JSON_parse st body) = contentLength st /\
  sequence (deliver JSON_parse st body) = sequence st /\
  outputStream (deliver JSON_parse st body) = outputStream st.
Proof.
  unfold deliver. destruct (0 <? _)%nat; [apply dispatch_frame|tauto].
Qed.

Lemma append_deliver (st : State) (body c : list byte) :
  append (deliver JSON_parse st body) c = deliver JSON_parse (append st c) body.
Proof.
  unfold append. rewrite deliver_set_rawData.
  now destruct (deliver_frame st body) as (-> & _).
Qed.

(** Awaiting a header, with a whole header at the front of the buffer. *)
Lemma handleData_body_header (st : State) (n : nat) (rest : list byte) :
  (contentLength st < 0)%Z ->
  rawData st = Buffer_from (header n) ++ rest ->
  handleData_body JSON_parse st =
  (Continue, set_rawData (set_contentLength st (Z.of_nat n)) rest).
Proof.
  intros Hc Hraw. unfold handleData_body.
  assert (E : (0 <=? contentLength st)%Z = false) by (apply Z.leb_gt; lia).
  rewrite E, Hraw.
  rewrite Buffer_toString_ascii_app by apply header_ascii.
  rewrite indexOf_header, exec_Content_Length_header.
  pose proof (Number_toString10 (N.of_nat n)) as HN.
  pose proof (toString10_nonempty (N.of_nat n)) as Hne.
  destruct (toString10 (N.of_nat n)) as [|d ds] eqn:Ed; [congruence|].
  rewrite HN, nat_N_Z, <- Ed, <- header_length. f_equal.
  unfold set_rawData, set_contentLength.
  cbn [rawData sequence pendingRequests contentLength outputStream signals].
  f_equal. rewrite Hraw.
  rewrite <- (Buffer_from_length_ascii (header n)) by apply header_ascii.
  apply drop_app_length.
Qed.

Lemma Buffer_from_ascii_split (h : jsstring) (p q : list byte) :
  ascii_text h -> p ++ q = Buffer_from h ->
  exists p' q', h = p' ++ q' /\ ascii_text p' /\
                p = Buffer_from p' /\ length q' = length q.
Proof.
  intros Hh Hpq.
  exists (take (length p) h), (drop (length p) h).
  assert (Hlen : length h = (length p + length q)%nat).
  { rewrite <- (Buffer_from_length_ascii h), <- Hpq by assumption.
    apply length_app. }
  repeat split.
  - symmetry. apply take_drop.
  - now apply Forall_take.
  - unfold Buffer_from in *. rewrite utf8_encode_ascii in Hpq by assumption.
    rewrite utf8_encode_ascii by now apply Forall_take.
    rewrite <- (take_drop (length p) h), map_app in Hpq.
    apply app_inj_1 in Hpq; [tauto|].
    rewrite length_map, length_take. lia.
  - rewrite length_drop. lia.
Qed.

(** Awaiting a header, with less than a whole header in the buffer. *)
Lemma handleData_body_header_partial (st : State) (n : nat) (q : list byte) :
  (contentLength st < 0)%Z ->
  rawData st ++ q = Buffer_from (header n) -> q <> [] ->
  handleData_body JSON_parse st = (Break, st).
Proof.
  intros Hc Hraw Hq. unfold handleData_body.
  assert (E : (0 <=? contentLength st)%Z = false) by (apply Z.leb_gt; lia).
  rewrite E.
  destruct (Buffer_from_ascii_split _ _ _ (header_ascii n) Hraw)
    as (p' & q' & Hh & Hp' & Hp & Hlen).
  rewrite Hp. rewrite <- (app_nil_r (Buffer_from p')).
  rewrite Buffer_toString_ascii_app, Buffer_toString_nil, app_nil_r by assumption.
  rewrite (indexOf_TWO_CRLF_partial (Content_Length ++ toString10 (N.of_nat n)) p' q').
  - reflexivity.
  - apply header_no_CR.
  - rewrite <- Hh. unfold header. now rewrite app_assoc.
  - intros ->. destruct q; [congruence|discriminate].
Qed.

(** Awaiting a body that the buffer holds. *)
Lemma handleData_body_body (st : State) (n : nat) :
  contentLength st = Z.of_nat n ->
  (n <= length (rawData st))%nat ->
  handleData_body JSON_parse st =
  (Continue,
   deliver JSON_parse (set_contentLength (set_rawData st (drop n (rawData st))) (-1))
     (take n (rawData st))).
Proof.
  intros Hc Hn. unfold handleData_body. rewrite Hc.
  assert (E1 : (0 <=? Z.of_nat n)%Z = true) by (apply Z.leb_le; lia).
  assert (E2 : (Z.of_nat n <=? Z.of_nat (length (rawData st)))%Z = true)
    by (apply Z.leb_le; lia).
  rewrite E1, E2, Nat2Z.id. reflexivity.
Qed.

(** Awaiting a body that has not arrived whole. *)
Lemma handleData_body_body_partial (st : State) (n : nat) :
  contentLength st = Z.of_nat n ->
  (length (rawData st) < n)%nat ->
  handleData_body JSON_parse st = (Break, st).
Proof.
  intros Hc Hn. unfold handleData_body. rewrite Hc.
  assert (E1 : (0 <=? Z.of_nat n)%Z = true) by (apply Z.leb_le; lia).
  assert (E2 : (Z.of_nat n <=? Z.of_nat (length (rawData st)))%Z = false)
    by (apply Z.leb_gt; lia).
  now rewrite E1, E2.
Qed.

(** ** The decoder on a stream of frames *)

Lemma frames_cons (b : list byte) (bs : list (list byte)) :
  frames (b :: bs) = Buffer_from (header (length b)) ++ b ++ frames bs.
Proof. unfold frames, frame. simpl. now rewrite <- app_assoc. Qed.

Lemma Buffer_from_header_nonempty (n : nat) : Buffer_from (header n) <> [].
Proof.
  intros H. apply (f_equal length) in H.
  rewrite Buffer_from_length_ascii in H by apply header_ascii.
  rewrite header_length in H. simpl in H. lia.
Qed.

Lemma handleData_body_empty (st : State) :
  (contentLength st < 0)%Z -> rawData st = [] ->
  handleData_body JSON_parse st = (Break, st).
Proof.
  intros Hc Hraw.
  apply (handleData_body_header_partial st O (Buffer_from (header O)));
    [assumption| |apply Buffer_from_header_nonempty].
  now rewrite Hraw.
Qed.

(** A pass that continues on a buffer in step continues in the same way
    when more of the stream has already arrived. *)
Lemma handleData_body_append (st st1 : State) (c fut : list byte)
    (bodies : list (list byte)) :
  Sync st (c ++ fut) bodies ->
  handleData_body JSON_parse st = (Continue, st1) ->
  handleData_body JSON_parse (append st c) = (Continue, append st1 c) /\
  exists bodies', Sync st1 (c ++ fut) bodies'.
Proof.
  intros [[Hc Hs] | (b & bs & -> & Hc & Hs)] Hstep.
  - destruct bodies as [|b bs].
    { apply app_eq_nil in Hs as [Hraw _].
      rewrite handleData_body_empty in Hstep by assumption. discriminate. }
    rewrite frames_cons in Hs.
    assert (Hk : exists k, rawData st = Buffer_from (header (length b)) ++ k /\
                           b ++ frames bs = k ++ c ++ fut).
    { apply app_eq_inv in Hs as [(k & Hk1 & Hk2) | (k & Hk1 & Hk2)].
      - now exists k.
      - destruct k as [|x k].
        + exists []. rewrite app_nil_r in *. simpl in Hk2. now split.
        + rewrite (handleData_body_header_partial st (length b) (x :: k))
            in Hstep by (auto || discriminate).
          discriminate. }
    destruct Hk as (k & Hraw & Hrest).
    rewrite (handleData_body_header st (length b) k) in Hstep by assumption.
    injection Hstep as <-. split.
    + rewrite (handleData_body_header (append st c) (length b) (k ++ c)).
      * reflexivity.
      * assumption.
      * unfold append. simpl. now rewrite Hraw, <- app_assoc.
    + exists (b :: bs). right. exists b, bs. repeat split. simpl.
      now rewrite Hrest.
  - destruct (le_lt_dec (length b) (length (rawData st))) as [Hle|Hlt].
    2:{ rewrite (handleData_body_body_partial st (length b)) in Hstep
          by assumption. discriminate. }
    rewrite (handleData_body_body st (length b)) in Hstep by assumption.
    injection Hstep as <-. split.
    + rewrite (handleData_body_body (append st c) (length b)).
      * f_equal. rewrite append_deliver. unfold append. simpl.
        now rewrite take_app_le, drop_app_le by assumption.
      * assumption.
      * simpl. rewrite length_app. lia.
    + exists bs. left.
      destruct (deliver_frame
        (set_contentLength (set_rawData st (drop (length b) (rawData st))) (-1))
        (take (length b) (rawData st))) as (-> & -> & _).
      simpl. split; [lia|].
      apply (f_equal (drop (length b))) in Hs.
      now rewrite drop_app_le, drop_app_length in Hs by assumption.
Qed.

Lemma Sync_append (st : State) (c fut : list byte) (bodies : list (list byte)) :
  Sync st (c ++ fut) bodies -> Sync (append st c) fut bodies.
Proof.
  intros [[Hc Hs] | (b & bs & -> & Hc & Hs)]; [left|right; exists b, bs];
    simpl; rewrite <- app_assoc; auto.
Qed.

(** Being in step is kept by [handleData]. *)
Lemma Sync_handleData (st : State) (fut : list byte) (bodies : list (list byte)) :
  Sync st fut bodies -> exists bodies', Sync (handleData JSON_parse st) fut bodies'.
Proof.
  remember (passes st) as m eqn:Hm. revert st Hm bodies.
  induction m as [m IH] using lt_wf_ind. intros st -> bodies Hs.
  rewrite handleData_unfold.
  destruct (handleData_body JSON_parse st) as [[|] st1] eqn:E.
  - pose proof E as Hlt. apply handleData_body_passes in Hlt.
    destruct (handleData_body_append st st1 [] fut bodies Hs E) as (_ & bs' & Hs').
    exact (IH _ Hlt st1 eq_refl bs' Hs').
  - apply handleData_body_Break in E as ->. eauto.
Qed.

(** Running the loop before the next chunk arrives changes nothing: what a
    pass could do on the shorter buffer it does on the longer one. *)
Lemma handleData_append (st : State) (c fut : list byte)
    (bodies : list (list byte)) :
  Sync st (c ++ fut) bodies ->
  handleData JSON_parse (append (handleData JSON_parse st) c) =
  handleData JSON_parse (append st c).
Proof.
  remember (passes st) as m eqn:Hm. revert st Hm bodies.
  induction m as [m IH] using lt_wf_ind. intros st -> bodies Hs.
  rewrite (handleData_unfold st).
  destruct (handleData_body JSON_parse st) as [[|] st1] eqn:E.
  - pose proof E as Hlt. apply handleData_body_passes in Hlt.
    destruct (handleData_body_append st st1 c fut bodies Hs E)
      as (Happ & bs' & Hs').
    rewrite (IH _ Hlt st1 eq_refl bs' Hs').
    symmetry. rewrite handleData_unfold. now rewrite Happ.
  - apply handleData_body_Break in E as ->. reflexivity.
Qed.

(** Chunk by chunk is as all at once. *)
Lemma connect_data_chunks (chunks : list (list byte)) (st : State)
    (fut : list byte) (bodies : list (list byte)) :
  Sync st (concat chunks ++ fut) bodies ->
  handleData_body JSON_parse st = (Break, st) ->
  fold_left (connect_data JSON_parse) chunks st =
  handleData JSON_parse (append st (concat chunks)).
Proof.
  revert st bodies. induction chunks as [|c cs IH]; intros st bodies Hs Hb.
  - simpl. rewrite append_nil, handleData_unfold. now rewrite Hb.
  - simpl in *. rewrite <- app_assoc in Hs.
    apply Sync_append in Hs.
    destruct (Sync_handleData _ _ _ Hs) as (bs' & Hs').
    change (connect_data JSON_parse st c)
      with (handleData JSON_parse (append st c)).
    rewrite (IH _ bs' Hs' (handleData_Break _)).
    rewrite (handleData_append _ _ fut bodies Hs).
    now rewrite append_append.
Qed.

(** A stream of whole frames is drained in one call, body after body. *)
Lemma handleData_frames (bodies : list (list byte)) (st : State) :
  contentLength st = (-1)%Z -> rawData st = [] ->
  handleData JSON_parse (append st (frames bodies)) = fold_left (deliver JSON_parse) bodies st.
Proof.
  revert st. induction bodies as [|b bs IH]; intros st Hc Hraw.
  - simpl. rewrite append_nil, handleData_unfold.
    now rewrite handleData_body_empty by (assumption || lia).
  - rewrite handleData_unfold.
    rewrite (handleData_body_header _ (length b) (b ++ frames bs)); cycle 1.
    { simpl. lia. }
    { unfold append. simpl. now rewrite Hraw, frames_cons. }
    rewrite handleData_unfold.
    rewrite (handleData_body_body _ (length b)); cycle 1.
    { reflexivity. }
    { simpl. rewrite length_app. clear. lia. }
    simpl rawData. rewrite take_app_length, drop_app_length.
    destruct (deliver_frame st b) as (Hr & Hcl & _).
    simpl fold_left. rewrite <- IH by congruence.
    f_equal. rewrite append_deliver. f_equal.
    destruct st; simpl in *. subst. reflexivity.
Qed.

Lemma deliver_nonempty (st : State) (body : list byte) :
  body <> [] -> deliver JSON_parse st body = dispatch_body JSON_parse st body.
Proof.
  intros Hb. unfold deliver, dispatch_body.
  now rewrite Buffer_toString_nonempty.
Qed.

Lemma fold_deliver_nonempty (bodies : list (list byte)) (st : State) :
  Forall (fun b => b <> []) bodies ->
  fold_left (deliver JSON_parse) bodies st = fold_left (dispatch_body JSON_parse) bodies st.
Proof.
  intros H. revert st. induction H as [|b bs Hb _ IH]; intros st; simpl.
  - reflexivity.
  - now rewrite deliver_nonempty, IH.
Qed.

Lemma Sync_idle (st : State) (bodies : list (list byte)) :
  contentLength st = (-1)%Z -> rawData st = [] ->
  Sync st (frames bodies) bodies.
Proof. intros Hc Hraw. left. rewrite Hraw. split; [lia|reflexivity]. Qed.

(** The decoder on a stream of frames with non-empty bodies, however it is
    cut into chunks. *)
Lemma connect_data_frames (st : State) (bodies chunks : list (list byte)) :
  contentLength st = (-1)%Z -> rawData st = [] ->
  Forall (fun b => b <> []) bodies ->
  concat chunks = frames bodies ->
  fold_left (connect_data JSON_parse) chunks st = fold_left (dispatch_body JSON_parse) bodies st.
Proof.
  intros Hc Hraw Hne Hchunks.
  rewrite (connect_data_chunks chunks st [] bodies).
  - rewrite Hchunks, handleData_frames by assumption.
    now apply fold_deliver_nonempty.
  - rewrite app_nil_r, Hchunks. now apply Sync_idle.
  - apply handleData_body_empty; [lia|assumption].
Qed.

(** C3. For every sequence of frames with non-empty bodies, the decoder,
    from an idle state, hands the same bodies to [dispatch] in the same
    order however the concatenated bytes are cut into chunks: fed all at
    once or one sub-chunk at a time, the resulting state, with all that was
    fired and called, is the one reached by dispatching the bodies in
    order. *)
Theorem partial_delivery_invariance (st : State) (bodies chunks : list (list byte)) :
  contentLength st = (-1)%Z -> rawData st = [] ->
  Forall (fun b => b <> []) bodies ->
  concat chunks = frames bodies ->
  fold_left (connect_data JSON_parse) chunks st = fold_left (dispatch_body JSON_parse) bodies st /\
  connect_data JSON_parse st (frames bodies) = fold_left (dispatch_body JSON_parse) bodies st.
Proof.
  intros Hc Hraw Hne Hchunks. split.
  - now apply connect_data_frames.
  - apply (connect_data_frames st bodies [frames bodies]); try assumption.
    simpl. apply app_nil_r.
Qed.

(** ** Dispatch *)

Lemma get_field_set_field (o : object) (k : jsstring) (v : jsval) :
  get_field (set_field o k v) k = Some v.
Proof.
  induction o as [|[k' v'] o IH]; simpl.
  - now rewrite jsstring_eqb_refl.
  - destruct (jsstring_eqb k' k) eqn:E; simpl.
    + now rewrite jsstring_eqb_refl.
    + now rewrite E.
Qed.

Lemma get_field_set_field_ne (o : object) (k k' : jsstring) (v : jsval) :
  k <> k' -> get_field (set_field o k v) k' = get_field o k'.
Proof.
  intros Hne. induction o as [|[k0 v0] o IH]; simpl.
  - destruct (jsstring_eqb k k') eqn:E; [|reflexivity].
    apply jsstring_eqb_eq in E. congruence.
  - destruct (jsstring_eqb k0 k) eqn:E; simpl.
    + apply jsstring_eqb_eq in E. subst k0.
      destruct (jsstring_eqb k k') eqn:E'; [|reflexivity].
      apply jsstring_eqb_eq in E'. congruence.
    + now rewrite IH.
Qed.

Lemma dispatch_SyntaxError (st : State) (body : jsstring) :
  JSON_parse body = None ->
  dispatch JSON_parse st body = emit st (onError (SyntaxError body)).
Proof. intros H. unfold dispatch. now rewrite H. Qed.

Lemma dispatch_response (st : State) (body : jsstring) (resp : jsval) :
  JSON_parse body = Some resp ->
  prop resp (str "type") = Some (JStr (str "response")) ->
  dispatch JSON_parse st body =
  match pending_get st (prop resp (str "request_seq")) with
  | Some clb =>
      emit (pending_delete st (prop resp (str "request_seq"))) (invoke clb resp)
  | None => st
  end.
Proof.
  intros Hp Ht. unfold dispatch. rewrite Hp.
  destruct resp; try discriminate. simpl is_null. cbv iota.
  now rewrite Ht.
Qed.

(** C10, as the code has it. A body that parses to a JSON value other than
    [null] whose [type] is none of ["event"], ["response"], ["request"]
    leaves the transport as it was: no subscriber is notified, no callback
    is invoked and the pending table is unchanged. *)
Theorem dispatch_unknown_type (st : State) (body : jsstring) (data : jsval) :
  JSON_parse body = Some data ->
  data <> JNull ->
  prop data (str "type") <> Some (JStr (str "event")) ->
  prop data (str "type") <> Some (JStr (str "response")) ->
  prop data (str "type") <> Some (JStr (str "request")) ->
  dispatch JSON_parse st body = st.
Proof.
  intros Hp Hnull He Hr Hq. unfold dispatch. rewrite Hp.
  destruct data; try congruence; try reflexivity.
  simpl is_null. cbv iota.
  destruct (prop (JObj fields) (str "type")) as [[| | |t| |]|]; try reflexivity.
  destruct (jsstring_eqb t (str "event")) eqn:E1.
  { apply jsstring_eqb_eq in E1. congruence. }
  destruct (jsstring_eqb t (str "response")) eqn:E2.
  { apply jsstring_eqb_eq in E2. congruence. }
  destruct (jsstring_eqb t (str "request")) eqn:E3.
  { apply jsstring_eqb_eq in E3. congruence. }
  reflexivity.
Qed.

(** C7, as the code has it. A malformed JSON text handed to [dispatch] is
    reported to the error subscribers and nothing else changes: buffer,
    recorded length, pending table and counter are as before. A frame with a
    non-empty malformed body is taken off the buffer, reported, and the
    frames that follow it are dispatched as they would be without it. *)
Theorem malformed_payload_reported (st : State) (body : list byte)
    (rest : list (list byte)) :
  contentLength st = (-1)%Z -> rawData st = [] ->
  body <> [] ->
  JSON_parse (Buffer_toString body) = None ->
  Forall (fun b => b <> []) rest ->
  let err := onError (SyntaxError (Buffer_toString body)) in
  (forall st0 : State,
      dispatch JSON_parse st0 (Buffer_toString body) = emit st0 err /\
      rawData (emit st0 err) = rawData st0 /\
      pendingRequests (emit st0 err) = pendingRequests st0) /\
  connect_data JSON_parse st (frames (body :: rest)) =
    fold_left (dispatch_body JSON_parse) rest (emit st err) /\
  (forall chunks, concat chunks = frames (body :: rest) ->
      fold_left (connect_data JSON_parse) chunks st =
        fold_left (dispatch_body JSON_parse) rest (emit st err)).
Proof.
  intros Hc Hraw Hb Hp Hrest err.
  assert (Hall : Forall (fun b => b <> []) (body :: rest)) by now constructor.
  assert (Hd : forall st0 : State, dispatch_body JSON_parse st0 body = emit st0 err).
  { intros st0. unfold dispatch_body. now apply dispatch_SyntaxError. }
  repeat split.
  - apply Hd.
  - change (connect_data JSON_parse st (frames (body :: rest)))
      with (fold_left (connect_data JSON_parse) [frames (body :: rest)] st).
    rewrite (connect_data_frames st (body :: rest) [frames (body :: rest)]);
      try assumption.
    + cbn [fold_left]. now rewrite Hd.
    + cbn [concat]. apply app_nil_r.
  - intros chunks Hchunks.
    rewrite (connect_data_frames st (body :: rest) chunks) by assumption.
    cbn [fold_left]. now rewrite Hd.
Qed.

(** ** The encoder *)

Section Encoder.

Variable JSON_stringify : jsval -> jsstring.

Lemma Buffer_from_app (a b : jsstring) :
  ascii_text a -> Buffer_from (a ++ b) = Buffer_from a ++ Buffer_from b.
Proof.
  intros Ha. unfold Buffer_from. rewrite <- map_app. f_equal.
  induction Ha as [|u a Hu _ IH]; simpl; [reflexivity|].
  apply N.ltb_lt in Hu. now rewrite Hu, IH.
Qed.

Lemma sendMessage_outputStream (st : State) (typ : MessageType) (message : object) :
  outputStream (fst (sendMessage JSON_stringify st typ message)) =
  outputStream st ++
  frame (Buffer_from (JSON_stringify (JObj (snd (sendMessage JSON_stringify st typ message))))).
Proof.
  unfold sendMessage, write. cbn [fst snd outputStream set_sequence].
  set (json := JSON_stringify _).
  rewrite <- app_assoc. unfold frame, header.
  replace (length (Buffer_from json)) with (Buffer_byteLength json)
    by (symmetry; apply length_map).
  reflexivity.
Qed.

Lemma sendMessage_sequence (st : State) (typ : MessageType) (message : object) :
  sequence (fst (sendMessage JSON_stringify st typ message)) = (sequence st + 1)%Z.
Proof. reflexivity. Qed.

Lemma sendMessage_seq (st : State) (typ : MessageType) (message : object) :
  get_field (snd (sendMessage JSON_stringify st typ message)) (str "seq") =
  Some (JNum (sequence st)).
Proof. unfold sendMessage. cbn [snd]. apply get_field_set_field. Qed.

Lemma sendMessage_type (st : State) (typ : MessageType) (message : object) :
  get_field (snd (sendMessage JSON_stringify st typ message)) (str "type") =
  Some (JStr (MessageType_string typ)).
Proof.
  unfold sendMessage. cbn [snd].
  rewrite get_field_set_field_ne by discriminate. apply get_field_set_field.
Qed.

Lemma sendRequest_frame (st : State) command args clb :
  sequence (sendRequest JSON_stringify st command args clb) = (sequence st + 1)%Z /\
  outputStream (sendRequest JSON_stringify st command args clb) =
  outputStream (fst (sendMessage JSON_stringify st request (request_object command args))).
Proof.
  unfold sendRequest.
  destruct (sendMessage JSON_stringify st request (request_object command args))
    as [st1 req] eqn:E.
  assert (Hs : sequence st1 = (sequence st + 1)%Z).
  { change st1 with (fst (st1, req)). rewrite <- E. reflexivity. }
  simpl. destruct clb as [c|]; [|tauto].
  destruct (get_field req (str "seq")) as [[| |k| | |]|]; simpl; tauto.
Qed.

(** C6. For every message sent, the bytes written are the ASCII text
    [Content-Length: ], the decimal numeral of [N], two CRLF pairs and the
    UTF-8 encoding of the serialized JSON body, where [N] is the number of
    bytes of that encoding (not the length of the string). *)
Theorem sendMessage_wire_format (st : State) (typ : MessageType) (message : object) :
  let json := JSON_stringify (JObj (snd (sendMessage JSON_stringify st typ message))) in
  let N := length (Buffer_from json) in
  outputStream (fst (sendMessage JSON_stringify st typ message)) =
    outputStream st ++ ascii_bytes "Content-Length: "
      ++ Buffer_from (toString10 (N.of_nat N))
      ++ [x0d; x0a; x0d; x0a] ++ Buffer_from json /\
  N = Buffer_byteLength json /\
  Forall (fun u => is_digit u = true) (toString10 (N.of_nat N)) /\
  Number (toString10 (N.of_nat N)) = N.of_nat N.
Proof.
  intros json N. repeat split.
  - rewrite sendMessage_outputStream. fold json. unfold frame, header. fold N.
    rewrite Buffer_from_app by apply Content_Length_ascii.
    rewrite Buffer_from_app by apply digits_ascii, toString10_digits.
    now rewrite <- !app_assoc.
  - unfold N, Buffer_from, Buffer_byteLength. apply length_map.
  - apply toString10_digits.
  - apply Number_toString10.
Qed.

(** C4, as the code has it. [sendResponse] rejects a response whose [seq]
    is greater than zero: nothing is written, counter and pending table are
    unchanged, and the attempt is logged on the console (no subscriber is
    notified, nothing is thrown). A response whose [seq] is zero or
    negative is transmitted; the object then carries its new [seq], so
    that sending the same object again is rejected. *)
Theorem sendResponse_guard (st : State) (resp : object) (n : Z) :
  get_field resp (str "seq") = Some (JNum n) ->
  ((0 < n)%Z ->
     sendResponse JSON_stringify st resp =
       (emit st (console_error (get_field resp (str "command"))), resp) /\
     outputStream (fst (sendResponse JSON_stringify st resp)) = outputStream st /\
     sequence (fst (sendResponse JSON_stringify st resp)) = sequence st /\
     pendingRequests (fst (sendResponse JSON_stringify st resp)) = pendingRequests st) /\
  ((n <= 0)%Z ->
     sendResponse JSON_stringify st resp = sendMessage JSON_stringify st response resp /\
     ((0 < sequence st)%Z ->
        let '(st1, resp1) := sendResponse JSON_stringify st resp in
        outputStream (fst (sendResponse JSON_stringify st1 resp1)) = outputStream st1)).
Proof.
  intros Hseq. unfold sendResponse at 1 2 3 4 5 6. rewrite Hseq. simpl greater_than_zero.
  split; intros Hn.
  - assert (E : (0 <? n)%Z = true) by (apply Z.ltb_lt; lia).
    rewrite E. repeat split.
  - assert (E : (0 <? n)%Z = false) by (apply Z.ltb_ge; lia).
    rewrite E. split; [reflexivity|]. intros Hpos.
    destruct (sendMessage JSON_stringify st response resp) as [st1 resp1] eqn:Es.
    pose proof (sendMessage_seq st response resp) as Hs. rewrite Es in Hs.
    simpl in Hs. unfold sendResponse. rewrite Hs. simpl greater_than_zero.
    assert (E' : (0 <? sequence st)%Z = true) by (apply Z.ltb_lt; lia).
    now rewrite E'.
Qed.

(** ** Correlation *)

Lemma sendRequest_pendingRequests (st : State) (command : jsstring)
    (args : option jsval) (clb : Callback) :
  pendingRequests (sendRequest JSON_stringify st command args (Some clb)) =
  <[sequence st := clb]> (pendingRequests st).
Proof.
  unfold sendRequest, sendMessage. rewrite get_field_set_field. reflexivity.
Qed.

(** C2. A request sent with a callback is entered in the pending table
    under the sequence number it was given (the [seq] of the message sent).
    When a response is decoded
    whose [request_seq] has an entry, the callback of the entry is invoked,
    once, with that response, and the entry is removed, so that the same
    response decoded again is dropped; a response whose [request_seq] has no
    entry is dropped: nothing is invoked or fired and the state is
    unchanged. *)
Theorem correlation_exactness (body : jsstring) (resp : jsval) :
  JSON_parse body = Some resp ->
  prop resp (str "type") = Some (JStr (str "response")) ->
  (forall (st : State) command args clb,
      get_field (snd (sendMessage JSON_stringify st request
                        (request_object command args))) (str "seq") =
        Some (JNum (sequence st)) /\
      pendingRequests (sendRequest JSON_stringify st command args (Some clb)) !!
        sequence st = Some clb) /\
  (forall (st : State) k clb,
      prop resp (str "request_seq") = Some (JNum k) ->
      pendingRequests st !! k = Some clb ->
      dispatch JSON_parse st body =
        emit (set_pendingRequests st (delete k (pendingRequests st)))
             (invoke clb resp) /\
      pendingRequests (dispatch JSON_parse st body) !! k = None /\
      dispatch JSON_parse (dispatch JSON_parse st body) body =
        dispatch JSON_parse st body) /\
  (forall st : State,
      pending_get st (prop resp (str "request_seq")) = None ->
      dispatch JSON_parse st body = st).
Proof.
  intros Hp Ht. split; [|split].
  - intros st command args clb. split; [apply sendMessage_seq|].
    rewrite sendRequest_pendingRequests. apply lookup_insert_eq.
  - intros st k clb Hk Hlook.
    assert (Hd : dispatch JSON_parse st body =
                 emit (set_pendingRequests st (delete k (pendingRequests st)))
                      (invoke clb resp)).
    { rewrite (dispatch_response _ _ _ Hp Ht), Hk.
      unfold pending_get, pending_delete. now rewrite Hlook. }
    rewrite Hd. split; [reflexivity|]. split.
    + cbn [pendingRequests emit set_pendingRequests]. apply lookup_delete_eq.
    + rewrite (dispatch_response _ _ _ Hp Ht), Hk.
      unfold pending_get. cbn [pendingRequests emit set_pendingRequests].
      now rewrite lookup_delete_eq.
  - intros st Hnone. rewrite (dispatch_response _ _ _ Hp Ht). now rewrite Hnone.
Qed.

(** ** The sequence counter *)

Lemma handleData_body_sequence (st st' : State) (c : control) :
  handleData_body JSON_parse st = (c, st') -> sequence st' = sequence st.
Proof.
  unfold handleData_body.
  destruct (0 <=? contentLength st)%Z.
  - destruct (contentLength st <=? _)%Z; [|congruence].
    intros H. injection H as _ <-.
    destruct (0 <? _)%nat; [|reflexivity].
    now destruct (dispatch_frame
      (set_contentLength
         (set_rawData st (drop (Z.to_nat (contentLength st)) (rawData st))) (-1))
      (Buffer_toString (take (Z.to_nat (contentLength st)) (rawData st))))
      as (_ & _ & -> & _).
  - destruct (indexOf _ _); [|congruence].
    destruct (exec_Content_Length _) as [[|d ds]|]; try congruence.
    intros H. now injection H as _ <-.
Qed.

Lemma handleData_sequence (st : State) :
  sequence (handleData JSON_parse st) = sequence st.
Proof.
  remember (passes st) as m eqn:Hm. revert st Hm.
  induction m as [m IH] using lt_wf_ind. intros st ->.
  rewrite handleData_unfold.
  destruct (handleData_body JSON_parse st) as [[|] st1] eqn:E.
  - pose proof E as Hlt. apply handleData_body_passes in Hlt.
    rewrite (IH _ Hlt st1 eq_refl). eapply handleData_body_sequence, E.
  - eapply handleData_body_sequence, E.
Qed.

Lemma connect_data_sequence (st : State) (chunk : list byte) :
  sequence (connect_data JSON_parse st chunk) = sequence st.
Proof. unfold connect_data. now rewrite handleData_sequence. Qed.

Lemma seq_values_from (calls : list (@call Callback)) (st : State) (k : nat) :
  sequence st = Z.of_nat k ->
  exists n,
    seq_values JSON_parse JSON_stringify st calls = numbered k n /\
    sequence (fold_left (perform JSON_parse JSON_stringify) calls st) =
    Z.of_nat (k + n).
Proof.
  revert st k. induction calls as [|c calls IH]; intros st k Hk.
  - exists O. simpl. split; [reflexivity|]. rewrite Hk. f_equal. lia.
  - assert (Hsent : forall typ message,
      get_field (snd (sendMessage JSON_stringify st typ message)) (str "seq") =
      Some (JNum (Z.of_nat k))).
    { intros. now rewrite sendMessage_seq, Hk. }
    assert (Hnext : forall st', sequence st' = (sequence st + 1)%Z ->
      exists n,
        seq_values JSON_parse JSON_stringify st' calls = numbered (S k) n /\
        sequence (fold_left (perform JSON_parse JSON_stringify) calls st') =
        Z.of_nat (k + S n)).
    { intros st' Hst'. destruct (IH st' (S k)) as (n & Hv & Hs); [lia|].
      exists n. split; [assumption|]. rewrite Hs. f_equal. lia. }
    cbn [seq_values fold_left].
    destruct c as [command args clb|resp|typ message|chunk]; cbn [sent perform].
    + destruct (Hnext (sendRequest JSON_stringify st command args clb))
        as (n & Hv & Hs); [apply sendRequest_frame|].
      exists (S n). rewrite Hsent, Hv. now split.
    + unfold sendResponse.
      destruct (greater_than_zero (get_field resp (str "seq"))).
      * destruct (IH (emit st (console_error (get_field resp (str "command")))) k Hk)
          as (n & Hv & Hs).
        exists n. now split.
      * destruct (Hnext (fst (sendMessage JSON_stringify st response resp)))
          as (n & Hv & Hs); [reflexivity|].
        exists (S n). rewrite Hsent, Hv. now split.
    + destruct (Hnext (fst (sendMessage JSON_stringify st typ message)))
        as (n & Hv & Hs); [reflexivity|].
      exists (S n). rewrite Hsent, Hv. now split.
    + destruct (IH (connect_data JSON_parse st chunk) k) as (n & Hv & Hs).
      { now rewrite connect_data_sequence. }
      exists n. now split.
Qed.

(** C5. Whatever calls are made on a new transport, mixed with whatever
    data arrives, the [seq] values given to the messages sent are
    1, 2, 3, ... in order, and the counter is one more than the number of
    messages sent; receiving data and dispatching leave the counter
    alone. *)
Theorem sequence_monotonic (calls : list (@call Callback)) :
  let values := seq_values JSON_parse JSON_stringify constructor calls in
  values = numbered 1 (length values) /\
  sequence (fold_left (perform JSON_parse JSON_stringify) calls constructor) =
    Z.of_nat (1 + length values) /\
  (forall (st : State) chunk,
      sequence (connect_data JSON_parse st chunk) = sequence st) /\
  (forall (st : State) body,
      sequence (dispatch JSON_parse st body) = sequence st).
Proof.
  intros values.
  destruct (seq_values_from calls constructor 1 eq_refl) as (n & Hv & Hs).
  fold values in Hv.
  assert (Hn : length values = n).
  { rewrite Hv. unfold numbered. now rewrite length_map, length_seq. }
  rewrite Hn. repeat split; try assumption.
  - apply connect_data_sequence.
  - intros st body. apply dispatch_frame.
Qed.

(** ** Round trip *)

Lemma keys_truthy (a : jsval) :
  Object_keys_length a <> O -> truthy (Some a) = true.
Proof. destruct a as [| | |[|u s]| |]; simpl; congruence. Qed.

Lemma request_object_command (command : jsstring) (args : option jsval) :
  get_field (request_object command args) (str "command") = Some (JStr command).
Proof.
  unfold request_object. destruct args as [a|]; [|reflexivity].
  destruct (truthy (Some a) && _); reflexivity.
Qed.

Lemma request_object_arguments (command : jsstring) (args : option jsval) :
  get_field (request_object command args) (str "arguments") =
  match args with
  | Some a => if Nat.eqb (Object_keys_length a) 0 then None else Some a
  | None => None
  end.
Proof.
  unfold request_object. destruct args as [a|]; [|reflexivity].
  destruct (Nat.eqb_spec (Object_keys_length a) 0) as [E|E].
  - rewrite E. rewrite andb_false_r. reflexivity.
  - rewrite (keys_truthy a E).
    assert (Hlt : (0 <? Object_keys_length a)%nat = true) by (apply Nat.ltb_lt; lia).
    rewrite Hlt. reflexivity.
Qed.

(** C8. The bytes [sendRequest] writes, fed to an idle decoder, give one
    dispatched message, published as a request: it has the command sent,
    the arguments sent (and no [arguments] at all when [args] is absent or
    has no fields), type ["request"] and the [seq] assigned at send time
    (the value of the counter before the send). *)
Theorem request_round_trip (st dec : State) (command : jsstring)
    (args : option jsval) (clb : option Callback) :
  let req := snd (sendMessage JSON_stringify st request (request_object command args)) in
  let written :=
    drop (length (outputStream st))
         (outputStream (sendRequest JSON_stringify st command args clb)) in
  contentLength dec = (-1)%Z -> rawData dec = [] ->
  JSON_round_trips JSON_parse JSON_stringify (JObj req) ->
  connect_data JSON_parse dec written = emit dec (onRequest (JObj req)) /\
  get_field req (str "command") = Some (JStr command) /\
  get_field req (str "arguments") =
    match args with
    | Some a => if Nat.eqb (Object_keys_length a) 0 then None else Some a
    | None => None
    end /\
  get_field req (str "type") = Some (JStr (str "request")) /\
  get_field req (str "seq") = Some (JNum (sequence st)).
Proof.
  intros req written Hc Hraw (Hne & Hwf & Hparse).
  pose proof (Buffer_round_trip _ Hwf) as Hutf.
  assert (Hty : get_field req (str "type") = Some (JStr (str "request")))
    by apply sendMessage_type.
  assert (Hwritten : written = frame (Buffer_from (JSON_stringify (JObj req)))).
  { unfold written. destruct (sendRequest_frame st command args clb) as (_ & ->).
    rewrite sendMessage_outputStream. apply drop_app_length. }
  assert (Hbody : Buffer_from (JSON_stringify (JObj req)) <> []).
  { intros E. rewrite E, Buffer_toString_nil in Hutf. now apply Hne. }
  repeat split.
  - change (connect_data JSON_parse dec written)
      with (fold_left (connect_data JSON_parse) [written] dec).
    rewrite (connect_data_frames dec [Buffer_from (JSON_stringify (JObj req))]
               [written]); try assumption.
    + cbn [fold_left]. unfold dispatch_body, dispatch.
      rewrite Hutf, Hparse. cbn [is_null prop]. rewrite Hty.
      reflexivity.
    + now repeat constructor.
    + cbn [concat]. rewrite app_nil_r, Hwritten. unfold frames.
      cbn [map concat]. now rewrite app_nil_r.
  - unfold req, sendMessage. cbn [snd].
    rewrite !get_field_set_field_ne by discriminate.
    apply request_object_command.
  - unfold req, sendMessage. cbn [snd].
    rewrite !get_field_set_field_ne by discriminate.
    apply request_object_arguments.
  - exact Hty.
  - apply sendMessage_seq.
Qed.

End Encoder.

End TransportProperties.

(* ===================================================================== *)
(** * The transport on the worked frames *)
(* ===================================================================== *)

Import Scenario.

(** C1. On the chunk ["Garbage\r\n\r\n"] followed by one well-formed frame
    carrying an event, the code drops the garbage header but takes the
    [Content-Length] of the frame behind it as the length to await ([46]):
    the first 46 bytes of the frame, beginning with its header, are handed
    to [dispatch], which reports a syntax error; the event is never
    published and 22 bytes of its body stay in the buffer. The same frame
    alone is decoded and published. *)
Theorem garbage_header_misframes :
  let st := connect_data JSON.parse fresh garbage_chunk in
  signals st =
    [onError (SyntaxError (Buffer_toString (take 46 (frame (utf8 initialized_event)))))] /\
  rawData st = drop 46 (frame (utf8 initialized_event)) /\
  contentLength st = (-1)%Z /\
  signals (connect_data JSON.parse fresh (frame (utf8 initialized_event))) =
    [onEvent initialized_event].
Proof. vm_compute. repeat split. Qed.

(** A pass on a buffer that holds a whole frame takes the header off. *)
Lemma handleData_terminates_witness :
  let st := set_rawData fresh (frame (utf8 initialized_event)) in
  let st' := set_rawData (set_contentLength fresh 46) (utf8 initialized_event) in
  handleData_body JSON.parse st = (Continue, st') /\
  (length (rawData st') < length (rawData st))%nat.
Proof.
  intros st st'.
  assert (Hstep : handleData_body JSON.parse st = (Continue, st'))
    by (vm_compute; reflexivity).
  split; [exact Hstep|].
  destruct (proj1 (@handleData_terminates nat JSON.parse) st st' Hstep)
    as [Hlt | (Hge & _)]; [exact Hlt|].
  vm_compute in Hge. contradiction.
Defined.

(** Two frames cut into three chunks, the cuts inside a header and inside
    a body. *)
Lemma partial_delivery_invariance_witness :
  fold_left (connect_data JSON.parse) three_chunks fresh =
    fold_left (dispatch_body JSON.parse) two_frames fresh /\
  connect_data JSON.parse fresh (frames two_frames) =
    fold_left (dispatch_body JSON.parse) two_frames fresh.
Proof.
  apply (partial_delivery_invariance JSON.parse fresh two_frames three_chunks).
  - reflexivity.
  - reflexivity.
  - repeat constructor; intros H; vm_compute in H; discriminate.
  - vm_compute. reflexivity.
Defined.

(** The request [evaluate] with callback [7], then its response. *)
Lemma correlation_exactness_witness :
  let st := sendRequest JSON.stringify fresh (str "evaluate")
              (Some evaluate_args) (Some 7%nat) in
  let body := JSON.stringify evaluate_response in
  pendingRequests st !! 1%Z = Some 7%nat /\
  dispatch JSON.parse st body =
    emit (set_pendingRequests st (delete 1%Z (pendingRequests st)))
         (invoke 7%nat evaluate_response) /\
  dispatch JSON.parse (dispatch JSON.parse st body) body =
    dispatch JSON.parse st body.
Proof.
  intros st body.
  destruct (@correlation_exactness nat JSON.parse JSON.stringify body evaluate_response)
    as (Hsend & Hmatch & _).
  - vm_compute. reflexivity.
  - vm_compute. reflexivity.
  - split.
    + exact (proj2 (Hsend fresh (str "evaluate") (Some evaluate_args) 7%nat)).
    + destruct (Hmatch st 1%Z 7%nat) as (Hd & _ & Hagain).
      * vm_compute. reflexivity.
      * vm_compute. reflexivity.
      * split; assumption.
Defined.

(** The body [null] is well-formed JSON without a [type], and [dispatch]
    reports an error for it. *)
Lemma dispatch_null_reports_error :
  JSON.parse (str "null") = Some JNull /\
  prop JNull (str "type") = None /\
  dispatch JSON.parse fresh (str "null") = emit fresh (onError TypeError) /\
  signals (dispatch JSON.parse fresh (str "null")) = [onError TypeError].
Proof. vm_compute. repeat split. Qed.

(** A message of type ["notice"]. *)
Lemma dispatch_unknown_type_witness :
  dispatch JSON.parse fresh (JSON.stringify unknown_message) = fresh.
Proof.
  apply (dispatch_unknown_type JSON.parse fresh _ unknown_message).
  - vm_compute. reflexivity.
  - discriminate.
  - vm_compute. discriminate.
  - vm_compute. discriminate.
  - vm_compute. discriminate.
Defined.

(** The frame [Content-Length: 0] has a body that is not JSON, and
    nothing is reported for it: an empty body never reaches [dispatch]. *)
Lemma empty_body_not_reported :
  JSON.parse (Buffer_toString []) = None /\
  connect_data JSON.parse fresh (frame []) = fresh /\
  signals (connect_data JSON.parse fresh (frame [])) = [].
Proof. vm_compute. repeat split. Qed.

(** The body [{oops], then a frame with an event. *)
Lemma malformed_payload_reported_witness :
  let body := Buffer_from (str "{oops") in
  let err := @onError nat (SyntaxError (Buffer_toString body)) in
  connect_data JSON.parse fresh (frames [body; utf8 initialized_event]) =
    fold_left (dispatch_body JSON.parse) [utf8 initialized_event] (emit fresh err).
Proof.
  intros body err.
  refine (proj1 (proj2 (malformed_payload_reported JSON.parse fresh body
                          [utf8 initialized_event] _ _ _ _ _))).
  - reflexivity.
  - reflexivity.
  - intros H; vm_compute in H; discriminate.
  - vm_compute. reflexivity.
  - repeat constructor; intros H; vm_compute in H; discriminate.
Defined.

(** A response whose [seq] is [-1] is not zero, and it is transmitted; a
    response whose [seq] is [1] is rejected with a line on the console, and
    no error subscriber hears of it. *)
Lemma sendResponse_negative_seq_sent :
  let st := fst (sendResponse JSON.stringify fresh (response_with_seq (-1))) in
  outputStream st <> [] /\ sequence st = 2%Z /\ signals st = [] /\
  signals (fst (sendResponse JSON.stringify fresh (response_with_seq 1))) =
    [console_error (Some (JStr (str "evaluate")))].
Proof. vm_compute. repeat split. discriminate. Qed.

(** A response with [seq] 1, and one with [seq] 0. *)
Lemma sendResponse_guard_witness :
  sendResponse JSON.stringify fresh (response_with_seq 1) =
    (emit fresh (console_error (Some (JStr (str "evaluate")))), response_with_seq 1) /\
  sendResponse JSON.stringify fresh (response_with_seq 0) =
    sendMessage JSON.stringify fresh response (response_with_seq 0).
Proof.
  split.
  - destruct (sendResponse_guard JSON.stringify fresh (response_with_seq 1) 1)
      as (Hpos & _); [reflexivity|].
    apply Hpos. lia.
  - destruct (sendResponse_guard JSON.stringify fresh (response_with_seq 0) 0)
      as (_ & Hneg); [reflexivity|].
    apply Hneg. lia.
Defined.

(** The request [evaluate] with arguments [{expr: "1+1"}], read back. *)
Lemma request_round_trip_witness :
  let req := snd (sendMessage JSON.stringify fresh request
                    (request_object (str "evaluate") (Some evaluate_args))) in
  let written :=
    drop (length (outputStream fresh))
         (outputStream (sendRequest JSON.stringify fresh (str "evaluate")
                          (Some evaluate_args) (Some 7%nat))) in
  connect_data JSON.parse fresh written = emit fresh (onRequest (JObj req)) /\
  get_field req (str "command") = Some (JStr (str "evaluate")) /\
  get_field req (str "arguments") = Some evaluate_args /\
  get_field req (str "type") = Some (JStr (str "request")) /\
  get_field req (str "seq") = Some (JNum 1).
Proof.
  intros req written.
  assert (Hrt : JSON_round_trips JSON.parse JSON.stringify (JObj req)).
  { unfold JSON_round_trips. split; [|split].
    - intros H; vm_compute in H; discriminate.
    - vm_compute. reflexivity.
    - vm_compute. reflexivity. }
  exact (request_round_trip JSON.parse JSON.stringify fresh fresh
           (str "evaluate") (Some evaluate_args) (Some 7%nat)
           eq_refl eq_refl Hrt).
Defined.

(** The body of the request above has 74 bytes, and a body with [é] has
    one byte more than it has code units. *)
Example Content_Length_counts_bytes :
  let cafe : object := [(str "message", JStr (str "caf" ++ [0xE9]))] in
  let st := fst (sendMessage JSON.stringify fresh event cafe) in
  let json := JSON.stringify (JObj (snd (sendMessage JSON.stringify fresh event cafe))) in
  length json = 41%nat /\
  Buffer_byteLength json = 42%nat /\
  take 22 (outputStream st) = ascii_bytes "Content-Length: 42" ++ CRLF_CRLF /\
  Buffer_toString (drop 22 (outputStream st)) = json.
Proof. vm_compute. repeat split. Qed.

(* ===================================================================== *)
(** * More on searching text *)
(* ===================================================================== *)


Lemma strip_prefix_Some (p s r : list N) :
  strip_prefix p s = Some r -> s = p ++ r.
Proof.
  revert s. induction p as [|x p IH]; intros s H; cbn in H.
  - now injection H as ->.
  - destruct s as [|y s]; [discriminate|].
    destruct (x =? y) eqn:E; [|discriminate].
    apply N.eqb_eq in E. subst y. cbn. f_equal. now apply IH.
Qed.

Lemma indexOf_cons (p : list N) (u : N) (s : list N) :
  indexOf p (u :: s) =
  match strip_prefix p (u :: s) with
  | Some _ => Some O
  | None => S <$> indexOf p s
  end.
Proof. destruct p; reflexivity. Qed.

Lemma indexOf_nil (p : list N) : p <> [] -> indexOf p [] = None.
Proof. destruct p; [congruence|reflexivity]. Qed.

(** Where [indexOf] finds the text, the text is. *)
Lemma indexOf_Some_split (p s : list N) (j : nat) :
  indexOf p s = Some j -> s = take j s ++ p ++ drop (j + length p) s.
Proof.
  revert j. induction s as [|u s IH]; intros j H.
  - destruct p as [|x p]; [|discriminate].
    cbn in H. injection H as <-. reflexivity.
  - rewrite indexOf_cons in H.
    destruct (strip_prefix p (u :: s)) as [r|] eqn:E.
    + injection H as <-. apply strip_prefix_Some in E. cbn [take app Nat.add].
      rewrite E at 1. f_equal. rewrite E. now rewrite drop_app_length.
    + destruct (indexOf p s) as [j'|]; [|discriminate].
      cbn in H. injection H as <-. cbn [take drop Nat.add app]. f_equal.
      now apply IH.
Qed.

Lemma strip_prefix_take (p s r : list N) (k : nat) :
  strip_prefix p (take k s) = Some r -> strip_prefix p s <> None.
Proof.
  revert s k r. induction p as [|x p IH]; intros s k r H; [discriminate|].
  destruct s as [|y s]; [destruct k; discriminate|].
  destruct k as [|k]; [discriminate|]. cbn in *.
  destruct (x =? y); [|discriminate]. eapply IH, H.
Qed.

(** Before the first occurrence there is none. *)
Lemma indexOf_take (p s : list N) (j : nat) :
  p <> [] -> indexOf p s = Some j -> indexOf p (take j s) = None.
Proof.
  intros Hp. revert j. induction s as [|u s IH]; intros j H.
  - rewrite take_nil. now apply indexOf_nil.
  - rewrite indexOf_cons in H.
    destruct (strip_prefix p (u :: s)) as [r|] eqn:E.
    + injection H as <-. now apply indexOf_nil.
    + destruct (indexOf p s) as [j'|] eqn:Ej; [|discriminate].
      cbn in H. injection H as <-. cbn [take]. rewrite indexOf_cons.
      destruct (strip_prefix p (u :: take j' s)) as [r|] eqn:E'.
      * exfalso. apply (strip_prefix_take p (u :: s) r (S j')); assumption.
      * now rewrite (IH j' eq_refl).
Qed.

(** A text that occurs is found. *)
Lemma indexOf_occurs (p a b : list N) : indexOf p (a ++ p ++ b) <> None.
Proof.
  induction a as [|u a IH].
  - cbn [app]. destruct (p ++ b) as [|x s] eqn:E.
    + destruct p; [discriminate|discriminate].
    + rewrite indexOf_cons, <- E, strip_prefix_app. discriminate.
  - cbn [app]. rewrite indexOf_cons.
    destruct (strip_prefix p (u :: a ++ p ++ b)); [discriminate|].
    destruct (indexOf p (a ++ p ++ b)); [discriminate|congruence].
Qed.

Lemma strip_prefix_length (p s r : jsstring) :
  strip_prefix p s = Some r -> length s = (length p + length r)%nat.
Proof.
  intros H. apply strip_prefix_Some in H. subst s. apply length_app.
Qed.

Lemma strip_prefix_Some_app (p s r t : jsstring) :
  strip_prefix p s = Some r -> strip_prefix p (s ++ t) = Some (r ++ t).
Proof.
  intros H. apply strip_prefix_Some in H. subst s.
  rewrite <- app_assoc. apply strip_prefix_app.
Qed.

(** A prefix that does not match for want of agreement, not of length, does
    not match when the text goes on. *)
Lemma strip_prefix_None_app (p s t : jsstring) :
  strip_prefix p s = None -> (length p <= length s)%nat ->
  strip_prefix p (s ++ t) = None.
Proof.
  revert s. induction p as [|x p IH]; intros s H Hl; [discriminate|].
  destruct s as [|y s]; [cbn in Hl; lia|]. cbn in *.
  destruct (x =? y); [|reflexivity]. apply IH; [assumption|lia].
Qed.

Lemma indexOf_Some_bound (p s : jsstring) (j : nat) :
  indexOf p s = Some j -> (j + length p <= length s)%nat.
Proof.
  revert j. induction s as [|u s IH]; intros j H.
  - destruct p as [|x p]; [|discriminate]. cbn in H. injection H as <-.
    cbn. lia.
  - rewrite indexOf_cons in H.
    destruct (strip_prefix p (u :: s)) as [r|] eqn:E.
    + injection H as <-. apply strip_prefix_length in E. lia.
    + destruct (indexOf p s) as [j'|]; [|discriminate].
      cbn in H. injection H as <-. specialize (IH j' eq_refl).
      cbn [length]. lia.
Qed.

(** The first occurrence stays the first when the text goes on. *)
Lemma indexOf_app_l (p s t : jsstring) (j : nat) :
  indexOf p s = Some j -> indexOf p (s ++ t) = Some j.
Proof.
  revert j. induction s as [|u s IH]; intros j H.
  - destruct p as [|x p]; [|discriminate]. cbn in H. injection H as <-.
    now destruct t.
  - cbn [app]. rewrite indexOf_cons in *.
    destruct (strip_prefix p (u :: s)) as [r|] eqn:E.
    + change (u :: s ++ t) with ((u :: s) ++ t).
      now rewrite (strip_prefix_Some_app _ _ _ t E).
    + destruct (indexOf p s) as [j'|] eqn:Ej; [|discriminate].
      change (u :: s ++ t) with ((u :: s) ++ t).
      rewrite strip_prefix_None_app; [now rewrite (IH j' eq_refl)|assumption|].
      apply indexOf_Some_bound in Ej. cbn [length]. lia.
Qed.

Lemma take_digits_app_other (r t : jsstring) (c : N) :
  is_digit c = false -> take_digits (r ++ c :: t) = take_digits r.
Proof.
  intros Hc. induction r as [|u r IH]; cbn; [now rewrite Hc|].
  destruct (is_digit u); [now rewrite IH|reflexivity].
Qed.

Lemma exec_Content_Length_cons (u : N) (s : jsstring) :
  exec_Content_Length (u :: s) =
  match strip_prefix Content_Length (u :: s) with
  | Some rest =>
      match take_digits rest with
      | [] => exec_Content_Length s
      | ds => Some ds
      end
  | None => exec_Content_Length s
  end.
Proof.
  unfold exec_Content_Length at 1; fold exec_Content_Length.
  destruct (strip_prefix Content_Length (u :: s)) as [rest|]; [|reflexivity].
  destruct (take_digits rest); reflexivity.
Qed.

(** A match needs the sixteen units of the literal and a digit. *)
Lemma exec_Content_Length_length (s ds : jsstring) :
  exec_Content_Length s = Some ds -> (17 <= length s)%nat.
Proof.
  induction s as [|u s IH]; [discriminate|].
  rewrite exec_Content_Length_cons.
  destruct (strip_prefix Content_Length (u :: s)) as [rest|] eqn:E.
  - apply strip_prefix_length in E. change (length Content_Length) with 16%nat in E.
    destruct rest as [|x rest]; [cbn [take_digits]; intros H; apply IH in H;
      cbn [length] in *; lia|].
    intros _. cbn [length] in *. lia.
  - intros H. apply IH in H. cbn [length]. lia.
Qed.

(** What the pattern finds in a text it finds in the same text followed by
    anything that does not begin with a digit. *)
Lemma exec_Content_Length_app (s ds t : jsstring) (c : N) :
  is_digit c = false ->
  exec_Content_Length s = Some ds ->
  exec_Content_Length (s ++ c :: t) = Some ds.
Proof.
  intros Hc. induction s as [|u s IH]; [discriminate|].
  cbn [app]. rewrite !exec_Content_Length_cons.
  change (u :: s ++ c :: t) with ((u :: s) ++ c :: t).
  destruct (strip_prefix Content_Length (u :: s)) as [rest|] eqn:E.
  - rewrite (strip_prefix_Some_app _ _ _ (c :: t) E).
    rewrite take_digits_app_other by assumption.
    destruct (take_digits rest); [exact IH|trivial].
  - intros H. rewrite strip_prefix_None_app; [now apply IH|assumption|].
    apply exec_Content_Length_length in H.
    change (length Content_Length) with 16%nat. cbn [length]. lia.
Qed.

(* ===================================================================== *)
(** * Further properties of the transport *)
(* ===================================================================== *)

Section FurtherProperties.

Context {Callback : Type}.
Variable JSON_parse : jsstring -> option jsval.

Local Abbreviation State := (@DebugAdapterProtocol Callback).

(** ** What receiving can change *)

(** A relation that holds across every pass holds across [handleData]. *)
Lemma handleData_preserves (R : State -> State -> Prop) :
  (forall st, R st st) ->
  (forall st1 st2 st3, R st1 st2 -> R st2 st3 -> R st1 st3) ->
  (forall st st', handleData_body JSON_parse st = (Continue, st') -> R st st') ->
  forall st, R st (handleData JSON_parse st).
Proof.
  intros Hrefl Htrans Hstep st.
  remember (passes st) as m eqn:Hm. revert st Hm.
  induction m as [m IH] using lt_wf_ind. intros st ->.
  rewrite handleData_unfold.
  destruct (handleData_body JSON_parse st) as [[|] st1] eqn:E.
  - pose proof E as Hlt. apply handleData_body_passes in Hlt.
    eapply Htrans; [apply Hstep, E|]. exact (IH _ Hlt st1 eq_refl).
  - apply handleData_body_Break in E as ->. apply Hrefl.
Qed.

Lemma dispatch_pendingRequests (st : State) (body : jsstring) :
  pendingRequests (dispatch JSON_parse st body) ⊆ pendingRequests st.
Proof.
  unfold dispatch.
  destruct (JSON_parse body) as [data|]; [|reflexivity].
  destruct (is_null data); [reflexivity|].
  destruct (prop data (str "type")) as [[| | |t| |]|]; try reflexivity.
  destruct (jsstring_eqb t _); [reflexivity|].
  destruct (jsstring_eqb t _).
  - destruct (prop data (str "request_seq")) as [[| |k| | |]|];
      cbn [pending_get pending_delete]; try reflexivity.
    destruct (pendingRequests st !! k); [|reflexivity].
    cbn [emit set_pendingRequests pendingRequests]. apply delete_subseteq.
  - destruct (jsstring_eqb t _); reflexivity.
Qed.

Lemma handleData_body_receives (st st' : State) (c : control) :
  handleData_body JSON_parse st = (c, st') ->
  outputStream st' = outputStream st /\
  pendingRequests st' ⊆ pendingRequests st.
Proof.
  unfold handleData_body.
  destruct (0 <=? contentLength st)%Z.
  - destruct (contentLength st <=? _)%Z.
    2:{ intros H. injection H as _ <-. split; reflexivity. }
    intros H. injection H as _ <-.
    destruct (0 <? _)%nat; [|split; reflexivity].
    split.
    + now destruct (dispatch_frame JSON_parse
        (set_contentLength
           (set_rawData st (drop (Z.to_nat (contentLength st)) (rawData st))) (-1))
        (Buffer_toString (take (Z.to_nat (contentLength st)) (rawData st))))
        as (_ & _ & _ & ->).
    + apply (dispatch_pendingRequests
        (set_contentLength
           (set_rawData st (drop (Z.to_nat (contentLength st)) (rawData st))) (-1))).
  - destruct (indexOf _ _).
    2:{ intros H. injection H as _ <-. split; reflexivity. }
    destruct (exec_Content_Length _) as [[|d ds]|];
      intros H; injection H as _ <-; split; reflexivity.
Qed.

Lemma handleData_receives (st : State) :
  outputStream (handleData JSON_parse st) = outputStream st /\
  pendingRequests (handleData JSON_parse st) ⊆ pendingRequests st.
Proof.
  apply (handleData_preserves
    (fun a b => outputStream b = outputStream a /\
                pendingRequests b ⊆ pendingRequests a)).
  - intros; split; reflexivity.
  - intros st1 st2 st3 [H1 H1'] [H2 H2']. split; [congruence|].
    now transitivity (pendingRequests st2).
  - intros s s' H. eapply handleData_body_receives, H.
Qed.

Lemma connect_data_receives_only_lemma (st : State) (chunk : list byte) :
  outputStream (connect_data JSON_parse st chunk) = outputStream st /\
  pendingRequests (connect_data JSON_parse st chunk) ⊆ pendingRequests st.
Proof. apply (handleData_receives (set_rawData st (rawData st ++ chunk))). Qed.

(** X1. Receiving never sends and never registers: a chunk of data, whatever
    it holds, writes nothing to the output stream and leaves in the pending
    table only entries that were there, with the callbacks they had. *)
Theorem connect_data_receives_only (st : State) (chunk : list byte) :
  outputStream (connect_data JSON_parse st chunk) = outputStream st /\
  pendingRequests (connect_data JSON_parse st chunk) ⊆ pendingRequests st.
Proof. apply (handleData_receives (set_rawData st (rawData st ++ chunk))). Qed.

(** ** When [handleData] has nothing to do *)

Lemma exec_Content_Length_nonempty (s : jsstring) :
  exec_Content_Length s <> Some [].
Proof.
  induction s as [|u s IH].
  - cbn. destruct (strip_prefix Content_Length []) as [rest|]; [|discriminate].
    destruct (take_digits rest); discriminate.
  - cbn [exec_Content_Length].
    destruct (strip_prefix Content_Length (u :: s)) as [rest|]; [|exact IH].
    destruct (take_digits rest); [exact IH|discriminate].
Qed.

Lemma at_rest_Break (st : State) :
  at_rest st <-> handleData_body JSON_parse st = (Break, st).
Proof.
  unfold at_rest, handleData_body. split.
  - intros [[Hc Hlen] | [Hc Hno]].
    + assert (E1 : (0 <=? contentLength st)%Z = true) by (apply Z.leb_le; lia).
      assert (E2 : (contentLength st <=? Z.of_nat (length (rawData st)))%Z = false)
        by (apply Z.leb_gt; lia).
      now rewrite E1, E2.
    + assert (E1 : (0 <=? contentLength st)%Z = false) by (apply Z.leb_gt; lia).
      rewrite E1. destruct Hno as [-> | ->]; [reflexivity|].
      now destruct (indexOf _ _).
  - destruct (0 <=? contentLength st)%Z eqn:E1.
    + apply Z.leb_le in E1.
      destruct (contentLength st <=? _)%Z eqn:E2; [discriminate|].
      apply Z.leb_gt in E2. intros _. left. split; assumption.
    + apply Z.leb_gt in E1. intros H. right. split; [assumption|].
      destruct (indexOf _ _); [|now left]. right.
      pose proof (exec_Content_Length_nonempty
                    (Buffer_toString (rawData st))) as Hne.
      destruct (exec_Content_Length (Buffer_toString (rawData st)))
        as [[|d ds]|]; [now contradiction Hne|discriminate|reflexivity].
Qed.

(** X2. [handleData] leaves the transport exactly as it was if and only if
    there is nothing to do: a body is awaited and the buffer holds fewer
    bytes than awaited, or a header is awaited and the buffered text has no
    separator or no [Content-Length] token. It always ends in such a state:
    no complete body stays in the buffer, and a second run changes
    nothing. *)
Theorem handleData_rest (st : State) :
  (handleData JSON_parse st = st <-> at_rest st) /\
  at_rest (handleData JSON_parse st) /\
  handleData JSON_parse (handleData JSON_parse st) = handleData JSON_parse st.
Proof.
  assert (Hrest : at_rest (handleData JSON_parse st))
    by apply at_rest_Break, handleData_Break.
  assert (Hid : forall s : State, at_rest s -> handleData JSON_parse s = s).
  { intros s Hs. apply at_rest_Break in Hs.
    rewrite handleData_unfold. now rewrite Hs. }
  repeat split.
  - intros H. now rewrite <- H.
  - apply Hid.
  - exact Hrest.
  - now apply Hid.
Qed.

(** ** Frames of any length, whole or not *)

Lemma fold_deliver_non_empty (bodies : list (list byte)) (st : State) :
  fold_left (deliver JSON_parse) bodies st =
  fold_left (dispatch_body JSON_parse) (non_empty bodies) st.
Proof.
  revert st. induction bodies as [|b bs IH]; intros st; [reflexivity|].
  cbn [fold_left non_empty List.filter].
  destruct b as [|x b].
  - cbn [length Nat.ltb Nat.leb]. rewrite <- IH. reflexivity.
  - replace (0 <? length (x :: b))%nat with true by reflexivity.
    cbn [fold_left]. rewrite <- IH. f_equal.
    now apply deliver_nonempty.
Qed.

Lemma fold_deliver_frame (bodies : list (list byte)) (st : State) :
  rawData (fold_left (deliver JSON_parse) bodies st) = rawData st /\
  contentLength (fold_left (deliver JSON_parse) bodies st) = contentLength st.
Proof.
  revert st. induction bodies as [|b bs IH]; intros st; [split; reflexivity|].
  cbn [fold_left]. destruct (IH (deliver JSON_parse st b)) as [-> ->].
  destruct (deliver_frame JSON_parse st b) as (-> & -> & _). split; reflexivity.
Qed.

(** X3. A stream of whole frames, some of them possibly with an empty body,
    cut into chunks in any way, leaves an idle decoder idle, with an empty
    buffer; the frames with an empty body are taken off without any effect,
    and the others are dispatched in order. *)
Theorem frames_drained (st : State) (bodies chunks : list (list byte)) :
  contentLength st = (-1)%Z -> rawData st = [] ->
  concat chunks = frames bodies ->
  let st' := fold_left (connect_data JSON_parse) chunks st in
  st' = fold_left (dispatch_body JSON_parse) (non_empty bodies) st /\
  rawData st' = [] /\ contentLength st' = (-1)%Z.
Proof.
  intros Hc Hraw Hchunks st'.
  assert (E : st' = fold_left (deliver JSON_parse) bodies st).
  { unfold st'. rewrite (connect_data_chunks JSON_parse chunks st [] bodies).
    - rewrite Hchunks. now apply handleData_frames.
    - rewrite app_nil_r, Hchunks. now apply Sync_idle.
    - apply handleData_body_empty; [lia|assumption]. }
  split; [|split].
  - rewrite E. apply fold_deliver_non_empty.
  - rewrite E. destruct (fold_deliver_frame bodies st) as [-> _]. assumption.
  - rewrite E. destruct (fold_deliver_frame bodies st) as [_ ->]. assumption.
Qed.

Lemma frames_single (body : list byte) : frames [body] = frame body.
Proof. unfold frames. cbn [map concat]. apply app_nil_r. Qed.

Lemma frame_split (body p q : list byte) :
  p ++ q = frame body -> q <> [] ->
  (exists k, k <> [] /\ p ++ k = Buffer_from (header (length body))) \/
  (exists k, p = Buffer_from (header (length body)) ++ k /\
             (length k < length body)%nat).
Proof.
  unfold frame. intros Hpq Hq.
  apply app_eq_inv in Hpq as [(k & Hk1 & Hk2) | (k & Hk1 & Hk2)].
  - right. exists k. split; [assumption|].
    rewrite Hk2, length_app. destruct q; [congruence|cbn; lia].
  - destruct k as [|x k].
    + right. exists []. rewrite app_nil_r in Hk1. split.
      * now rewrite app_nil_r.
      * cbn in Hk2. subst q. destruct body; [congruence|cbn; lia].
    + left. exists (x :: k). split; [discriminate|now symmetry].
Qed.

Lemma incomplete_frame_silent (st : State) (body p q : list byte) :
  contentLength st = (-1)%Z -> rawData st = [] ->
  p ++ q = frame body -> q <> [] ->
  signals (handleData JSON_parse (append st p)) = signals st /\
  pendingRequests (handleData JSON_parse (append st p)) = pendingRequests st.
Proof.
  intros Hc Hraw Hpq Hq.
  assert (Hcl : (contentLength (append st p) < 0)%Z).
  { unfold append. cbn [contentLength set_rawData]. lia. }
  assert (Hr : rawData (append st p) = p).
  { unfold append. cbn [rawData set_rawData]. now rewrite Hraw. }
  rewrite handleData_unfold.
  destruct (frame_split body p q Hpq Hq) as [(k & Hk & Hpk) | (k & Hpk & Hlen)].
  - rewrite (handleData_body_header_partial JSON_parse (append st p)
               (length body) k); [split; reflexivity|assumption| |assumption].
    now rewrite Hr.
  - rewrite (handleData_body_header JSON_parse (append st p) (length body) k);
      [|assumption|now rewrite Hr].
    rewrite handleData_unfold.
    rewrite (handleData_body_body_partial JSON_parse _ (length body));
      [split; reflexivity|reflexivity|exact Hlen].
Qed.

(** X4. No part of a frame is acted on before the frame is whole: an idle
    decoder given all but the last bytes of a frame fires nothing, calls
    nothing and leaves the pending table alone; the remaining bytes then
    complete the frame, and its body is dispatched. *)
Theorem incomplete_frame_waits (st : State) (body p q : list byte) :
  contentLength st = (-1)%Z -> rawData st = [] ->
  p ++ q = frame body -> q <> [] ->
  signals (connect_data JSON_parse st p) = signals st /\
  pendingRequests (connect_data JSON_parse st p) = pendingRequests st /\
  connect_data JSON_parse (connect_data JSON_parse st p) q =
    deliver JSON_parse st body.
Proof.
  intros Hc Hraw Hpq Hq.
  destruct (incomplete_frame_silent st body p q Hc Hraw Hpq Hq) as [Hs Hp].
  split; [exact Hs|]. split; [exact Hp|].
  change (connect_data JSON_parse (connect_data JSON_parse st p) q)
    with (fold_left (connect_data JSON_parse) [p; q] st).
  rewrite (connect_data_chunks JSON_parse [p; q] st [] [body]).
  - cbn [concat]. rewrite app_nil_r, Hpq, <- frames_single.
    now rewrite handleData_frames.
  - cbn [concat]. rewrite !app_nil_r, Hpq, <- frames_single.
    now apply Sync_idle.
  - apply handleData_body_empty; [lia|assumption].
Qed.


(** ** Sending and receiving together *)

Section Both.

Variable JSON_stringify : jsval -> jsstring.

Local Abbreviation run := (fold_left (perform JSON_parse JSON_stringify)).

Lemma frames_cons_frame (b : list byte) (bs : list (list byte)) :
  frames (b :: bs) = frame b ++ frames bs.
Proof. reflexivity. Qed.

Lemma perform_outputStream (st : State) (c : call) :
  outputStream (perform JSON_parse JSON_stringify st c) =
  outputStream st ++
  match sent JSON_stringify st c with
  | Some m => frame (wire JSON_stringify m)
  | None => []
  end.
Proof.
  destruct c as [command args clb|resp|typ message|chunk]; cbn [perform sent].
  - destruct (sendRequest_frame JSON_parse JSON_stringify st command args clb) as (_ & ->).
    apply sendMessage_outputStream.
  - unfold sendResponse.
    destruct (greater_than_zero (get_field resp (str "seq"))).
    + cbn [fst emit outputStream]. now rewrite app_nil_r.
    + apply sendMessage_outputStream.
  - apply sendMessage_outputStream.
  - rewrite app_nil_r. apply connect_data_receives_only_lemma.
Qed.

Lemma run_outputStream (calls : list call) (st : State) :
  outputStream (run calls st) =
  outputStream st ++
  frames (map (wire JSON_stringify) (sent_messages JSON_parse JSON_stringify st calls)).
Proof.
  revert st. induction calls as [|c calls IH]; intros st.
  - cbn. now rewrite app_nil_r.
  - cbn [fold_left sent_messages]. rewrite IH, perform_outputStream.
    destruct (sent JSON_stringify st c) as [m|].
    + cbn [map]. now rewrite frames_cons_frame, app_assoc.
    + now rewrite app_nil_r.
Qed.

(** X6. Whatever calls are made and whatever data arrives in between, the
    bytes written to the output stream are the frames of the messages
    sent, one after the other in the order of sending, and nothing else:
    a rejected response and incoming data write nothing. *)
Theorem outputStream_frames (calls : list call) (st : State) :
  outputStream (run calls st) =
  outputStream st ++
  frames (map (wire JSON_stringify) (sent_messages JSON_parse JSON_stringify st calls)).
Proof. apply run_outputStream. Qed.

Lemma utf8_encode_nonempty (s : jsstring) : s <> [] -> utf8_encode s <> [].
Proof.
  destruct s as [|u s]; [congruence|]. intros _. cbn [utf8_encode].
  destruct (u <? 128); [discriminate|].
  destruct (u <? 2048); [discriminate|].
  destruct (is_high_surrogate u).
  - destruct s as [|l s]; [discriminate|].
    destruct (is_low_surrogate l); discriminate.
  - destruct (is_low_surrogate u); discriminate.
Qed.

Lemma Buffer_from_nonempty (s : jsstring) : s <> [] -> Buffer_from s <> [].
Proof.
  intros Hs H. apply (utf8_encode_nonempty s Hs).
  unfold Buffer_from in H. now apply map_eq_nil in H.
Qed.

(** X7. What one transport sends, its peer dispatches: the bytes written
    by any series of calls, cut into chunks in any way and fed to an idle
    decoder, make it dispatch the bodies of the messages sent, each once,
    in the order of sending (the JSON texts being non-empty). *)
Theorem peer_dispatches_sent (calls : list call) (st dec : State)
    (chunks : list (list byte)) :
  contentLength dec = (-1)%Z -> rawData dec = [] ->
  Forall (fun m => JSON_stringify (JObj m) <> [])
         (sent_messages JSON_parse JSON_stringify st calls) ->
  concat chunks = drop (length (outputStream st)) (outputStream (run calls st)) ->
  fold_left (connect_data JSON_parse) chunks dec =
  fold_left (dispatch_body JSON_parse)
    (map (wire JSON_stringify) (sent_messages JSON_parse JSON_stringify st calls)) dec.
Proof.
  intros Hc Hraw Hne Hchunks.
  rewrite run_outputStream, drop_app_length in Hchunks.
  apply connect_data_frames; try assumption.
  apply Forall_fmap. eapply Forall_impl; [exact Hne|].
  intros m Hm. now apply Buffer_from_nonempty.
Qed.

Lemma with_encoder_dispatch (st : State) (n : Z) (out : list byte)
    (body : jsstring) :
  dispatch JSON_parse (with_encoder st n out) body =
  with_encoder (dispatch JSON_parse st body) n out.
Proof.
  unfold dispatch.
  destruct (JSON_parse body) as [data|]; [|reflexivity].
  destruct (is_null data); [reflexivity|].
  destruct (prop data (str "type")) as [[| | |t| |]|]; try reflexivity.
  destruct (jsstring_eqb t _); [reflexivity|].
  destruct (jsstring_eqb t _).
  - destruct (prop data (str "request_seq")) as [[| |k| | |]|];
      cbn [pending_get pending_delete with_encoder pendingRequests];
      try reflexivity.
    destruct (pendingRequests st !! k); reflexivity.
  - destruct (jsstring_eqb t _); reflexivity.
Qed.

Lemma with_encoder_handleData_body (st : State) (n : Z) (out : list byte) :
  handleData_body JSON_parse (with_encoder st n out) =
  (fst (handleData_body JSON_parse st),
   with_encoder (snd (handleData_body JSON_parse st)) n out).
Proof.
  unfold handleData_body. cbn [with_encoder contentLength rawData].
  destruct (0 <=? contentLength st)%Z.
  - destruct (contentLength st <=? _)%Z; [|reflexivity].
    cbn [fst snd]. f_equal.
    destruct (0 <? _)%nat; [|reflexivity].
    apply (with_encoder_dispatch
      (set_contentLength
         (set_rawData st (drop (Z.to_nat (contentLength st)) (rawData st))) (-1))).
  - destruct (indexOf _ _); [|reflexivity].
    destruct (exec_Content_Length _) as [[|d ds]|]; reflexivity.
Qed.

Lemma with_encoder_handleData_loop (fuel : nat) (st : State) (n : Z)
    (out : list byte) :
  handleData_loop JSON_parse fuel (with_encoder st n out) =
  (fun s => with_encoder s n out) <$> handleData_loop JSON_parse fuel st.
Proof.
  revert st. induction fuel as [|fuel IH]; intros st; [reflexivity|].
  cbn [handleData_loop]. rewrite with_encoder_handleData_body.
  destruct (handleData_body JSON_parse st) as [[|] st1]; cbn [fst snd].
  - apply IH.
  - reflexivity.
Qed.

Lemma with_encoder_handleData (st : State) (n : Z) (out : list byte) :
  handleData JSON_parse (with_encoder st n out) =
  with_encoder (handleData JSON_parse st) n out.
Proof.
  unfold handleData.
  change (passes (with_encoder st n out)) with (passes st).
  rewrite with_encoder_handleData_loop.
  destruct (handleData_loop_enough JSON_parse (S (passes st)) st) as (st' & -> & _);
    [lia|].
  reflexivity.
Qed.

Lemma sendMessage_with_encoder (st : State) (typ : MessageType) (m : object) :
  fst (sendMessage JSON_stringify st typ m) =
  with_encoder st (sequence st + 1)
    (outputStream st ++ frame (wire JSON_stringify (snd (sendMessage JSON_stringify st typ m)))).
Proof.
  pose proof (sendMessage_outputStream JSON_stringify st typ m) as Hout.
  destruct (sendMessage JSON_stringify st typ m) as [st1 m1] eqn:E.
  cbn [fst snd] in *. unfold wire. rewrite <- Hout.
  unfold sendMessage in E. injection E as <- _. reflexivity.
Qed.

(** X8. Sending a message and receiving a chunk do not interfere: the
    message sent, the bytes written and the state reached are the same
    whether the chunk is handled before the send or after it. *)
Theorem sendMessage_connect_data_commute (st : State) (typ : MessageType)
    (m : object) (chunk : list byte) :
  sendMessage JSON_stringify (connect_data JSON_parse st chunk) typ m =
  (connect_data JSON_parse (fst (sendMessage JSON_stringify st typ m)) chunk,
   snd (sendMessage JSON_stringify st typ m)).
Proof.
  assert (Hm : snd (sendMessage JSON_stringify (connect_data JSON_parse st chunk) typ m)
               = snd (sendMessage JSON_stringify st typ m)).
  { unfold sendMessage. cbn [snd]. now rewrite connect_data_sequence. }
  rewrite (surjective_pairing (sendMessage _ (connect_data _ _ _) _ _)).
  f_equal; [|exact Hm].
  rewrite !sendMessage_with_encoder, Hm.
  rewrite connect_data_sequence.
  destruct (connect_data_receives_only_lemma st chunk) as [-> _].
  unfold connect_data.
  change (set_rawData (with_encoder st ?n ?o) ?r)
    with (with_encoder (set_rawData st r) n o).
  now rewrite with_encoder_handleData.
Qed.

(** ** The pending table between calls *)

Lemma sendRequest_pending (st : State) (command : jsstring)
    (args : option jsval) (clb : option Callback) :
  pendingRequests (sendRequest JSON_stringify st command args clb) =
  match clb with
  | Some c => <[sequence st := c]> (pendingRequests st)
  | None => pendingRequests st
  end.
Proof.
  destruct clb as [c|]; [apply sendRequest_pendingRequests|reflexivity].
Qed.

Lemma perform_pending_assigned (st : State) (c : call) :
  pending_assigned st ->
  pending_assigned (perform JSON_parse JSON_stringify st c).
Proof.
  intros [Hseq Hkeys].
  destruct c as [command args clb|resp|typ message|chunk]; cbn [perform].
  - destruct (sendRequest_frame JSON_parse JSON_stringify st command args clb)
      as (Hs & _).
    split; [lia|]. intros k c. rewrite Hs, sendRequest_pending.
    destruct clb as [c0|].
    + rewrite lookup_insert. destruct (decide (sequence st = k)) as [<-|Hne].
      * intros _. lia.
      * intros H. apply Hkeys in H. lia.
    + intros H. apply Hkeys in H. lia.
  - unfold sendResponse.
    destruct (greater_than_zero (get_field resp (str "seq"))).
    + split; [assumption|]. exact Hkeys.
    + split; [cbn; lia|]. intros k c H. apply Hkeys in H. cbn. lia.
  - split; [cbn; lia|]. intros k c H. apply Hkeys in H. cbn. lia.
  - unfold pending_assigned. rewrite connect_data_sequence.
    split; [assumption|]. intros k c H. apply (Hkeys k c).
    eapply lookup_weaken; [exact H|]. apply connect_data_receives_only_lemma.
Qed.

Lemma run_pending_assigned (calls : list call) (st : State) :
  pending_assigned st -> pending_assigned (run calls st).
Proof.
  revert st. induction calls as [|c calls IH]; intros st H; [exact H|].
  cbn [fold_left]. apply IH. now apply perform_pending_assigned.
Qed.

(** X9. On a transport that started new, after any calls and any incoming
    data, every key of the pending table is a sequence number that was
    given out earlier; so the number the next request gets has no entry
    yet, and sending a request with a callback never replaces or drops a
    callback that is still waiting. *)
Theorem pending_never_overwritten (calls : list (@call Callback)) :
  let st := run calls constructor in
  (forall k clb, pendingRequests st !! k = Some clb -> (1 <= k < sequence st)%Z) /\
  pendingRequests st !! sequence st = None /\
  (forall command args clb,
      pendingRequests st ⊆
      pendingRequests (sendRequest JSON_stringify st command args (Some clb))).
Proof.
  intros st.
  assert (H : pending_assigned st).
  { apply run_pending_assigned. split; [cbn; lia|].
    intros k clb Hk. cbn in Hk. now rewrite lookup_empty in Hk. }
  destruct H as [Hseq Hkeys].
  assert (Hnone : pendingRequests st !! sequence st = None).
  { destruct (pendingRequests st !! sequence st) as [clb|] eqn:E; [|reflexivity].
    apply Hkeys in E. lia. }
  split; [exact Hkeys|]. split; [exact Hnone|].
  intros command args clb. rewrite sendRequest_pendingRequests.
  now apply insert_subseteq.
Qed.

(** ** From one transport to the other *)

Lemma sendMessage_written (st : State) (typ : MessageType) (m : object) :
  drop (length (outputStream st))
       (outputStream (fst (sendMessage JSON_stringify st typ m))) =
  frame (wire JSON_stringify (snd (sendMessage JSON_stringify st typ m))).
Proof. rewrite sendMessage_outputStream. apply drop_app_length. Qed.

Lemma connect_data_frame_text (dec : State) (s : jsstring) :
  contentLength dec = (-1)%Z -> rawData dec = [] ->
  s <> [] -> well_formed s = true ->
  connect_data JSON_parse dec (frame (Buffer_from s)) = dispatch JSON_parse dec s.
Proof.
  intros Hc Hraw Hs Hwf.
  change (connect_data JSON_parse dec (frame (Buffer_from s)))
    with (fold_left (connect_data JSON_parse) [frame (Buffer_from s)] dec).
  rewrite (connect_data_frames JSON_parse dec [Buffer_from s]); try assumption.
  - cbn [fold_left]. unfold dispatch_body. now rewrite Buffer_round_trip.
  - constructor; [now apply Buffer_from_nonempty|constructor].
  - cbn [concat]. now rewrite app_nil_r, frames_single.
Qed.

(** X10. The text handed to [dispatch] on the receiving side is the very
    text [JSON.stringify] produced on the sending side, for a message of
    any type: header, byte count and UTF-8 coding cancel out, provided the
    text is not empty and is well-formed UTF-16. *)
Theorem sent_text_reaches_dispatch (st dec : State) (typ : MessageType)
    (m : object) :
  let json := JSON_stringify (JObj (snd (sendMessage JSON_stringify st typ m))) in
  contentLength dec = (-1)%Z -> rawData dec = [] ->
  json <> [] -> well_formed json = true ->
  connect_data JSON_parse dec
    (drop (length (outputStream st))
          (outputStream (fst (sendMessage JSON_stringify st typ m)))) =
  dispatch JSON_parse dec json.
Proof.
  intros json Hc Hraw Hne Hwf. rewrite sendMessage_written.
  now apply connect_data_frame_text.
Qed.

Lemma dispatch_request (st : State) (body : jsstring) (m : object) :
  JSON_parse body = Some (JObj m) ->
  get_field m (str "type") = Some (JStr (str "request")) ->
  dispatch JSON_parse st body = emit st (onRequest (JObj m)).
Proof.
  intros Hp Ht. unfold dispatch. rewrite Hp. cbn [is_null prop].
  now rewrite Ht.
Qed.

(** X11. A whole exchange between two transports: [A] sends a request with
    a callback, [B] decodes it and publishes it as a request, [B] answers
    with a response object naming the request's [seq] as its [request_seq],
    and [A], decoding the answer, invokes the callback once, with the
    answer, and drops the pending entry. *)
Theorem request_response_exchange (A B : State) (command : jsstring)
    (args : option jsval) (clb : Callback) (resp : object) :
  let req := snd (sendMessage JSON_stringify A request
                    (request_object command args)) in
  let A1 := sendRequest JSON_stringify A command args (Some clb) in
  let to_B := drop (length (outputStream A)) (outputStream A1) in
  let B1 := connect_data JSON_parse B to_B in
  let answer := snd (sendMessage JSON_stringify B1 response resp) in
  let to_A :=
    drop (length (outputStream B1))
         (outputStream (fst (sendResponse JSON_stringify B1 resp))) in
  contentLength A = (-1)%Z -> rawData A = [] ->
  contentLength B = (-1)%Z -> rawData B = [] ->
  JSON_round_trips JSON_parse JSON_stringify (JObj req) ->
  JSON_round_trips JSON_parse JSON_stringify (JObj answer) ->
  greater_than_zero (get_field resp (str "seq")) = false ->
  get_field resp (str "request_seq") = get_field req (str "seq") ->
  B1 = emit B (onRequest (JObj req)) /\
  connect_data JSON_parse A1 to_A =
    emit (set_pendingRequests A1 (delete (sequence A) (pendingRequests A1)))
         (invoke clb (JObj answer)) /\
  signals (connect_data JSON_parse A1 to_A) =
    signals A ++ [invoke clb (JObj answer)] /\
  pendingRequests (connect_data JSON_parse A1 to_A) !! sequence A = None.
Proof.
  intros req A1 to_B B1 answer to_A HcA HrA HcB HrB
    (Hne1 & Hwf1 & Hp1) (Hne2 & Hwf2 & Hp2) Hguard Hseq.
  assert (HB1 : B1 = emit B (onRequest (JObj req))).
  { unfold B1, to_B, A1.
    destruct (sendRequest_frame JSON_parse JSON_stringify A command args (Some clb))
      as (_ & ->).
    rewrite sendMessage_written. fold req. unfold wire.
    rewrite connect_data_frame_text by assumption.
    apply dispatch_request; [assumption|]. apply sendMessage_type. }
  assert (HtoA : to_A = frame (Buffer_from (JSON_stringify (JObj answer)))).
  { unfold to_A, sendResponse. rewrite Hguard. apply sendMessage_written. }
  assert (Hkey : prop (JObj answer) (str "request_seq") = Some (JNum (sequence A))).
  { cbn [prop]. unfold answer, sendMessage. cbn [snd].
    rewrite !get_field_set_field_ne by discriminate.
    rewrite Hseq. apply sendMessage_seq. }
  assert (Hpend : pendingRequests A1 !! sequence A = Some clb).
  { unfold A1. rewrite sendRequest_pendingRequests. apply lookup_insert_eq. }
  assert (HA1 : contentLength A1 = (-1)%Z /\ rawData A1 = [] /\
                signals A1 = signals A).
  { unfold A1, sendRequest, sendMessage. rewrite get_field_set_field.
    cbn. auto. }
  destruct HA1 as (HcA1 & HrA1 & HsA1).
  assert (Hd : connect_data JSON_parse A1 to_A =
    emit (set_pendingRequests A1 (delete (sequence A) (pendingRequests A1)))
         (invoke clb (JObj answer))).
  { rewrite HtoA, connect_data_frame_text by assumption.
    rewrite (dispatch_response JSON_parse A1 _ (JObj answer) Hp2).
    - rewrite Hkey. cbn [pending_get pending_delete]. now rewrite Hpend.
    - cbn [prop]. apply sendMessage_type. }
  split; [exact HB1|]. split; [exact Hd|]. rewrite Hd. split.
  - cbn [signals emit set_pendingRequests]. now rewrite HsA1.
  - cbn [pendingRequests emit set_pendingRequests]. apply lookup_delete_eq.
Qed.

End Both.

(** ** Headers the decoder accepts *)

Lemma handleData_body_any_header (st : State) (h ds : jsstring)
    (rest : list byte) :
  (contentLength st < 0)%Z ->
  ascii_text h ->
  indexOf TWO_CRLF (h ++ TWO_CRLF) = Some (length h) ->
  exec_Content_Length h = Some ds ->
  rawData st = Buffer_from (h ++ TWO_CRLF) ++ rest ->
  handleData_body JSON_parse st =
  (Continue, set_rawData (set_contentLength st (Z.of_N (Number ds))) rest).
Proof.
  intros Hc Hascii Hidx Hexec Hraw. unfold handleData_body.
  assert (E : (0 <=? contentLength st)%Z = false) by (apply Z.leb_gt; lia).
  assert (Ha : ascii_text (h ++ TWO_CRLF)).
  { apply Forall_app. split; [assumption|]. repeat constructor. }
  rewrite E, Hraw, (Buffer_toString_ascii_app _ _ Ha).
  rewrite (indexOf_app_l _ _ _ _ Hidx).
  assert (Hx : exec_Content_Length ((h ++ TWO_CRLF) ++ Buffer_toString rest)
               = Some ds).
  { rewrite <- app_assoc. change (TWO_CRLF ++ Buffer_toString rest)
      with (13 :: [10; 13; 10] ++ Buffer_toString rest).
    now apply exec_Content_Length_app. }
  rewrite Hx.
  pose proof (exec_Content_Length_nonempty h) as Hne.
  destruct ds as [|d ds]; [exfalso; apply Hne; exact Hexec|]. f_equal.
  unfold set_rawData, set_contentLength.
  cbn [rawData sequence pendingRequests contentLength outputStream signals].
  f_equal. rewrite Hraw, <- length_app.
  rewrite <- (Buffer_from_length_ascii _ Ha). apply drop_app_length.
Qed.

(** X18. The decoder accepts more headers than the encoder writes. Whatever
    ASCII text [h] stands before the first blank line, if the pattern
    [Content-Length: (\d+)] occurs in it, the digits [ds] of its leftmost
    occurrence give the length of the body: other header lines before and
    after, text before the literal on the same line, and leading zeros are
    all passed over, and the body that follows is dispatched. *)
Theorem any_header_accepted (st : State) (h ds : jsstring) (body : list byte) :
  contentLength st = (-1)%Z -> rawData st = [] ->
  ascii_text h ->
  indexOf TWO_CRLF (h ++ TWO_CRLF) = Some (length h) ->
  exec_Content_Length h = Some ds ->
  Number ds = N.of_nat (length body) ->
  connect_data JSON_parse st (Buffer_from (h ++ TWO_CRLF) ++ body) =
  deliver JSON_parse st body.
Proof.
  intros Hc Hraw Hascii Hidx Hexec Hlen. unfold connect_data.
  rewrite handleData_unfold.
  rewrite (handleData_body_any_header _ h ds body); try assumption; cycle 1.
  { cbn [contentLength set_rawData]. lia. }
  { cbn [rawData set_rawData]. now rewrite Hraw. }
  rewrite handleData_unfold, Hlen, nat_N_Z.
  rewrite (handleData_body_body _ _ (length body)); cycle 1.
  { reflexivity. }
  { cbn [rawData set_rawData set_contentLength]. lia. }
  cbn [rawData set_rawData set_contentLength].
  rewrite take_ge, drop_ge by lia.
  rewrite handleData_unfold.
  match goal with
  | |- context [deliver JSON_parse ?s body] =>
      destruct (deliver_frame JSON_parse s body) as (Hr & Hcl & _)
  end.
  rewrite handleData_body_empty; cycle 1.
  { rewrite Hcl. cbn. lia. }
  { rewrite Hr. reflexivity. }
  f_equal. destruct st; cbn in *. subst. reflexivity.
Qed.

End FurtherProperties.

(* ===================================================================== *)
(** * The further properties on the worked frames *)
(* ===================================================================== *)

(** Three frames, the middle one empty, in two chunks. *)
Lemma frames_drained_witness :
  let chunks := [take 40 (frames frames_with_gap);
                 drop 40 (frames frames_with_gap)] in
  let st' := fold_left (connect_data JSON.parse) chunks fresh in
  st' = fold_left (dispatch_body JSON.parse) (non_empty frames_with_gap) fresh /\
  rawData st' = [] /\ contentLength st' = (-1)%Z.
Proof.
  intros chunks.
  apply (frames_drained JSON.parse fresh frames_with_gap chunks).
  - reflexivity.
  - reflexivity.
  - vm_compute. reflexivity.
Defined.

(** The first 30 bytes of a frame, then the rest. *)
Lemma incomplete_frame_waits_witness :
  let body := utf8 initialized_event in
  let p := take 30 (frame body) in
  let q := drop 30 (frame body) in
  signals (connect_data JSON.parse fresh p) = signals fresh /\
  pendingRequests (connect_data JSON.parse fresh p) = pendingRequests fresh /\
  connect_data JSON.parse (connect_data JSON.parse fresh p) q =
    deliver JSON.parse fresh body.
Proof.
  intros body p q.
  apply (incomplete_frame_waits JSON.parse fresh body p q).
  - reflexivity.
  - reflexivity.
  - apply take_drop.
  - intros H. vm_compute in H. discriminate.
Defined.


(** The bytes written by five calls, three of which send, in two chunks. *)
Lemma peer_dispatches_sent_witness :
  let out := outputStream (fold_left (perform JSON.parse JSON.stringify)
                             some_calls fresh) in
  let chunks := [take 100 out; drop 100 out] in
  fold_left (connect_data JSON.parse) chunks fresh =
  fold_left (dispatch_body JSON.parse)
    (map (wire JSON.stringify)
         (sent_messages JSON.parse JSON.stringify fresh some_calls)) fresh.
Proof.
  intros out chunks.
  apply (peer_dispatches_sent JSON.parse JSON.stringify some_calls fresh fresh chunks).
  - reflexivity.
  - reflexivity.
  - vm_compute. repeat constructor; discriminate.
  - vm_compute. reflexivity.
Defined.

(** An event sent, and read by a new transport. *)
Lemma sent_text_reaches_dispatch_witness :
  let m : object := [(str "event", JStr (str "stopped"))] in
  let json := JSON.stringify (JObj (snd (sendMessage JSON.stringify fresh event m))) in
  connect_data JSON.parse fresh
    (drop (length (outputStream fresh))
          (outputStream (fst (sendMessage JSON.stringify fresh event m)))) =
  dispatch JSON.parse fresh json.
Proof.
  intros m json.
  apply (sent_text_reaches_dispatch JSON.parse JSON.stringify fresh fresh event m).
  - reflexivity.
  - reflexivity.
  - intros H. vm_compute in H. discriminate.
  - vm_compute. reflexivity.
Defined.

(** The request [evaluate] from one new transport to another, and the
    answer back. *)
Lemma request_response_exchange_witness :
  let req := snd (sendMessage JSON.stringify fresh request
                    (request_object (str "evaluate") (Some evaluate_args))) in
  let A1 := sendRequest JSON.stringify fresh (str "evaluate")
              (Some evaluate_args) (Some 7%nat) in
  let to_B := drop (length (outputStream fresh)) (outputStream A1) in
  let B1 := connect_data JSON.parse fresh to_B in
  let answer := snd (sendMessage JSON.stringify B1 response answer_to_1) in
  let to_A :=
    drop (length (outputStream B1))
         (outputStream (fst (sendResponse JSON.stringify B1 answer_to_1))) in
  B1 = emit fresh (onRequest (JObj req)) /\
  connect_data JSON.parse A1 to_A =
    emit (set_pendingRequests A1 (delete (sequence fresh) (pendingRequests A1)))
         (invoke 7%nat (JObj answer)) /\
  signals (connect_data JSON.parse A1 to_A) =
    signals fresh ++ [invoke 7%nat (JObj answer)] /\
  pendingRequests (connect_data JSON.parse A1 to_A) !! sequence fresh = None.
Proof.
  intros req A1 to_B B1 answer to_A.
  assert (H1 : JSON_round_trips JSON.parse JSON.stringify (JObj req)).
  { unfold JSON_round_trips. split; [|split].
    - intros H; vm_compute in H; discriminate.
    - vm_compute. reflexivity.
    - vm_compute. reflexivity. }
  assert (H2 : JSON_round_trips JSON.parse JSON.stringify (JObj answer)).
  { unfold JSON_round_trips. split; [|split].
    - intros H; vm_compute in H; discriminate.
    - vm_compute. reflexivity.
    - vm_compute. reflexivity. }
  exact (request_response_exchange JSON.parse JSON.stringify fresh fresh
           (str "evaluate") (Some evaluate_args) 7%nat answer_to_1
           eq_refl eq_refl eq_refl eq_refl H1 H2 eq_refl eq_refl).
Defined.

Lemma any_header_accepted_witness :
  connect_data JSON.parse fresh
    (Buffer_from (long_header ++ TWO_CRLF) ++ seven_bytes) =
  deliver JSON.parse fresh seven_bytes.
Proof.
  apply (any_header_accepted JSON.parse fresh long_header (str "007") seven_bytes).
  - reflexivity.
  - reflexivity.
  - vm_compute. repeat constructor.
  - vm_compute. reflexivity.
  - vm_compute. reflexivity.
  - vm_compute. reflexivity.
Defined.

(* ===================================================================== *)
(** * Properties of the installer's PATH handling *)
(* ===================================================================== *)

(** ** Searching with [Pos] *)

Lemma Pos_0_nil (Substr Str : list N) :
  Substr <> [] -> Pos Substr Str = O -> indexOf Substr Str = None.
Proof.
  intros Hs. unfold Pos. destruct Substr; [congruence|].
  destruct (indexOf _ _); [discriminate|reflexivity].
Qed.

Lemma Pos_S (Substr Str : list N) (j : nat) :
  Pos Substr Str = S j -> Substr <> [] /\ indexOf Substr Str = Some j.
Proof.
  unfold Pos. destruct Substr as [|x p]; [discriminate|].
  destruct (indexOf _ _) as [i|]; [|discriminate].
  intros H. injection H as ->. split; [discriminate|reflexivity].
Qed.

(** ** [Explode] *)

Lemma insert_resize_last {A} (l : list A) (i : nat) (x y : A) :
  <[i := x]> (resize (i + 1) y l) = resize i y l ++ [x].
Proof.
  rewrite resize_add.
  rewrite insert_app_r_alt by (rewrite length_resize; lia).
  rewrite length_resize, Nat.sub_diag.
  destruct (drop i l) as [|a [|b l0]]; reflexivity.
Qed.

Lemma Copy_head (Text : list N) (j : nat) : Copy Text 1 (S j - 1) = take j Text.
Proof. unfold Copy. cbn. now rewrite Nat.sub_0_r. Qed.

Lemma Copy_tail (Text : list N) (j n : nat) :
  Copy Text (S j + n) (length Text) = drop (j + n) Text.
Proof.
  unfold Copy. cbn [Nat.add Nat.sub]. rewrite Nat.sub_0_r.
  apply take_ge. rewrite length_drop. lia.
Qed.

(** One pass of the loop. *)
Lemma Explode_loop_S (fuel : nat) (Dest : list (list N))
    (Text Separator : list N) (i : nat) :
  Explode_loop (S fuel) Dest Text Separator i =
  match Pos Separator Text with
  | O => Some (resize i [] Dest ++ [Text])
  | S j =>
      let Text' := drop (j + length Separator) Text in
      match Text' with
      | [] => Some (resize i [] Dest ++ [take j Text])
      | _ :: _ =>
          Explode_loop fuel (resize i [] Dest ++ [take j Text]) Text'
            Separator (i + 1)
      end
  end.
Proof.
  cbn [Explode_loop]. destruct (Pos Separator Text) as [|j] eqn:Ep.
  - cbn. apply f_equal, insert_resize_last.
  - replace (0 <? S j)%nat with true by reflexivity.
    rewrite Copy_head, Copy_tail, insert_resize_last. cbn zeta.
    destruct (drop (j + length Separator) Text); reflexivity.
Qed.

Lemma Explode_loop_form (Separator : list N) (fuel : nat) (Text : list N) :
  (length Text < fuel)%nat ->
  exists parts, parts <> [] /\
    forall fuel' Dest i, (fuel <= fuel')%nat ->
      Explode_loop fuel' Dest Text Separator i =
      Some (resize i [] Dest ++ parts).
Proof.
  revert Text. induction fuel as [|fuel IH]; intros Text Hf; [lia|].
  destruct (Pos Separator Text) as [|j] eqn:Ep.
  - exists [Text]. split; [discriminate|]. intros [|fuel'] Dest i Hle; [lia|].
    now rewrite Explode_loop_S, Ep.
  - destruct (drop (j + length Separator) Text) as [|u Text'] eqn:Ed.
    + exists [take j Text]. split; [discriminate|].
      intros [|fuel'] Dest i Hle; [lia|].
      rewrite Explode_loop_S, Ep. cbn zeta. now rewrite Ed.
    + destruct (IH (u :: Text')) as (parts & Hne & Hparts).
      { apply Pos_S in Ep as [Hs _]. apply (f_equal length) in Ed.
        rewrite length_drop in Ed.
        destruct Separator; [congruence|]. cbn [length] in *. lia. }
      exists (take j Text :: parts). split; [discriminate|].
      intros [|fuel'] Dest i Hle; [lia|].
      rewrite Explode_loop_S, Ep. cbn zeta. rewrite Ed, Hparts by lia.
      rewrite resize_all_alt by (rewrite length_app, length_resize; cbn; lia).
      now rewrite <- app_assoc.
Qed.

Lemma Explode_loop_Explode (Separator : list N) (fuel : nat)
    (Dest : list (list N)) (Text : list N) (i : nat) :
  (length Text < fuel)%nat ->
  Explode_loop fuel Dest Text Separator i =
  (fun parts => resize i [] Dest ++ parts) <$> Explode [] Text Separator.
Proof.
  intros Hf.
  destruct (Explode_loop_form Separator (S (length Text)) Text ltac:(lia))
    as (parts & _ & H).
  unfold Explode. rewrite !H by lia. reflexivity.
Qed.

(** [Explode], unrolled once. *)
Lemma Explode_unfold (Dest : list (list N)) (Text Separator : list N) :
  Explode Dest Text Separator =
  match Pos Separator Text with
  | O => Some [Text]
  | S j =>
      match drop (j + length Separator) Text with
      | [] => Some [take j Text]
      | Text' => cons (take j Text) <$> Explode [] Text' Separator
      end
  end.
Proof.
  unfold Explode at 1. rewrite Explode_loop_S, resize_0. cbn [app].
  destruct (Pos Separator Text) as [|j] eqn:Ep; [reflexivity|]. cbn zeta.
  destruct (drop (j + length Separator) Text) as [|u Text'] eqn:Ed;
    [reflexivity|].
  rewrite Explode_loop_Explode.
  - destruct (Explode [] (u :: Text') Separator); reflexivity.
  - apply Pos_S in Ep as [Hs _]. apply (f_equal length) in Ed.
    rewrite length_drop in Ed.
    destruct Separator; [congruence|]. cbn [length] in *. lia.
Qed.

Lemma Explode_shorter (Separator Text : list N) (j : nat) :
  Pos Separator Text = S j ->
  (length (drop (j + length Separator) Text) < length Text)%nat.
Proof.
  intros Ep. apply Pos_S in Ep as [Hs Hi].
  apply indexOf_Some_split, (f_equal length) in Hi.
  rewrite !length_app in Hi. rewrite length_drop.
  destruct Separator; [congruence|]. cbn [length] in *. lia.
Qed.

(** Reasoning along the passes of [Explode]: nothing found; found at the very
    end; found with text left over. *)
Lemma Explode_ind (Separator : list N) (P : list N -> list (list N) -> Prop) :
  (forall Text, Pos Separator Text = O -> P Text [Text]) ->
  (forall Text j, Pos Separator Text = S j ->
     drop (j + length Separator) Text = [] -> P Text [take j Text]) ->
  (forall Text j parts, Pos Separator Text = S j ->
     drop (j + length Separator) Text <> [] ->
     Explode [] (drop (j + length Separator) Text) Separator = Some parts ->
     P (drop (j + length Separator) Text) parts ->
     P Text (take j Text :: parts)) ->
  forall Dest Text parts, Explode Dest Text Separator = Some parts -> P Text parts.
Proof.
  intros H0 H1 H2 Dest Text. remember (length Text) as n eqn:En.
  revert Dest Text En. induction n as [n IH] using lt_wf_ind.
  intros Dest Text -> parts H. rewrite Explode_unfold in H.
  destruct (Pos Separator Text) as [|j] eqn:Ep.
  - injection H as <-. now apply H0.
  - destruct (drop (j + length Separator) Text) as [|u Text'] eqn:Ed.
    + injection H as <-. now apply H1.
    + destruct (Explode [] (u :: Text') Separator) as [parts'|] eqn:Ee;
        [|discriminate].
      cbn in H. injection H as <-. rewrite <- Ed in Ee.
      apply H2; [assumption|now rewrite Ed|assumption|].
      eapply IH; [|reflexivity|exact Ee]. now apply Explode_shorter.
Qed.

Lemma Explode_total (Dest : list (list N)) (Text Separator : list N) :
  exists parts, Explode Dest Text Separator = Some parts /\
    Explode [] Text Separator = Some parts /\ parts <> [].
Proof.
  destruct (Explode_loop_form Separator (S (length Text)) Text ltac:(lia))
    as (parts & Hne & H).
  exists parts. unfold Explode. rewrite !H by lia. now rewrite !resize_0.
Qed.

(** X12. [Explode] returns for every text and separator (the empty separator
    included), the array it returns has at least one entry, and what the
    destination array held before the call plays no part. *)
Theorem Explode_returns (Dest : list (list N)) (Text Separator : list N) :
  exists parts,
    Explode Dest Text Separator = Some parts /\
    parts <> [] /\
    forall Dest', Explode Dest' Text Separator = Some parts.
Proof.
  destruct (Explode_total Dest Text Separator) as (parts & H & H' & Hne).
  exists parts. repeat split; [assumption..|]. intros Dest'.
  destruct (Explode_total Dest' Text Separator) as (parts' & G & G' & _).
  congruence.
Qed.


(** X13. No part returned by [Explode] contains the separator. *)
Theorem Explode_parts_free (Dest : list (list N)) (Text Separator : list N)
    (parts : list (list N)) :
  Explode Dest Text Separator = Some parts ->
  Forall (fun part => Pos Separator part = O) parts.
Proof.
  revert Dest Text parts.
  apply (Explode_ind Separator (fun _ parts =>
    Forall (fun part => Pos Separator part = O) parts)).
  - intros Text Ep. now constructor.
  - intros Text j Ep _. constructor; [|constructor].
    apply Pos_S in Ep as [Hs Hi]. unfold Pos.
    destruct Separator; [congruence|]. now rewrite (indexOf_take _ _ _ Hs Hi).
  - intros Text j parts Ep _ _ IH. constructor; [|assumption].
    apply Pos_S in Ep as [Hs Hi]. unfold Pos.
    destruct Separator; [congruence|]. now rewrite (indexOf_take _ _ _ Hs Hi).
Qed.

(** ** [NeedsAddPath] against the entries of the PATH *)

Lemma indexOf_single_None (c : N) (s : list N) :
  indexOf [c] s = None -> ~ In c s.
Proof.
  induction s as [|u s IH]; intros H; [intros []|].
  rewrite indexOf_cons in H. cbn [strip_prefix] in H.
  destruct (c =? u) eqn:E; [discriminate|].
  apply N.eqb_neq in E.
  destruct (indexOf [c] s); [discriminate|].
  intros [->|Hin]; [congruence|]. now apply IH.
Qed.

(** The text before the first separator holds no separator. *)
Lemma before_semicolon (Text : list N) (j : nat) :
  Pos semicolon Text = S j -> ~ In 59 (take j Text).
Proof.
  intros Ep. apply Pos_S in Ep as [Hs Hi].
  apply indexOf_single_None. now apply indexOf_take.
Qed.

Lemma around_semicolon (Text : list N) (j : nat) :
  Pos semicolon Text = S j ->
  Text = take j Text ++ 59 :: drop (j + 1) Text.
Proof.
  intros Ep. apply Pos_S in Ep as [_ Hi].
  now apply indexOf_Some_split in Hi.
Qed.

Lemma split_at_first (c : N) (x a r r' : list N) :
  ~ In c x -> a ++ c :: r = x ++ c :: r' ->
  exists k, a = x ++ k /\ c :: r' = k ++ c :: r.
Proof.
  revert a. induction x as [|y x IH]; intros a Hc H.
  - exists a. now split.
  - destruct a as [|y' a]; cbn in H.
    + injection H as -> _. exfalso. apply Hc. now left.
    + injection H as -> H. destruct (IH a) as (k & -> & Hk);
        [intros Hin; apply Hc; now right|assumption|].
      exists k. now split.
Qed.

Lemma first_semicolon (c : N) (x y r r' : list N) :
  ~ In c x -> ~ In c y -> x ++ c :: r = y ++ c :: r' -> x = y.
Proof.
  intros Hx Hy H. destruct (split_at_first c y x r r' Hy H) as (k & -> & Hk).
  destruct k as [|z k]; [now rewrite app_nil_r|].
  cbn in Hk. injection Hk as <- _. exfalso. apply Hx, in_or_app. right. now left.
Qed.

Lemma NeedsAddPath_false (Path Param : list N) :
  NeedsAddPath (Some Path) Param = false <->
  exists a b, 59 :: Path ++ [59] = a ++ 59 :: Param ++ 59 :: b.
Proof.
  unfold NeedsAddPath, Pos, semicolon. cbn [app]. split.
  - destruct (indexOf _ _) as [j|] eqn:Ei; [|discriminate]. intros _.
    apply indexOf_Some_split in Ei. eexists _, _. rewrite Ei at 1.
    cbn [app]. now rewrite <- app_assoc.
  - intros (a & b & H). rewrite H.
    pose proof (indexOf_occurs (59 :: Param ++ [59]) a b) as Ho.
    cbn [app] in Ho. rewrite <- app_assoc in Ho. cbn [app] in Ho.
    now destruct (indexOf _ _).
Qed.

Lemma listed_occurs (Param : list N) (Dest : list (list N)) (Path : list N)
    (Parts : list (list N)) :
  Explode Dest Path semicolon = Some Parts ->
  In Param Parts ->
  exists a b, 59 :: Path ++ [59] = a ++ 59 :: Param ++ 59 :: b.
Proof.
  revert Dest Path Parts.
  apply (Explode_ind semicolon (fun Path Parts => In Param Parts ->
    exists a b, 59 :: Path ++ [59] = a ++ 59 :: Param ++ 59 :: b)).
  - intros Text _ [<-|[]]. now exists [], [].
  - intros Text j Ep Ed [<-|[]]. exists [], [59]. cbn [app]. f_equal.
    rewrite (around_semicolon _ _ Ep) at 1. cbn [semicolon length] in Ed.
    rewrite Ed, <- app_assoc. reflexivity.
  - intros Text j parts Ep _ _ IH [<-|Hin].
    + exists [], (drop (j + 1) Text ++ [59]). cbn [app]. f_equal.
      rewrite (around_semicolon _ _ Ep) at 1. now rewrite <- app_assoc.
    + destruct (IH Hin) as (a & b & H). cbn [semicolon length] in H.
      exists (59 :: take j Text ++ a), b. cbn [app]. f_equal.
      rewrite (around_semicolon _ _ Ep) at 1.
      rewrite <- !app_assoc. f_equal. cbn [app]. exact H.
Qed.

Lemma occurs_listed (Param : list N) (Dest : list (list N)) (Path : list N)
    (Parts : list (list N)) :
  Param <> [] -> ~ In 59 Param ->
  Explode Dest Path semicolon = Some Parts ->
  forall a b, 59 :: Path ++ [59] = a ++ 59 :: Param ++ 59 :: b ->
  In Param Parts.
Proof.
  intros Hne Hfree. revert Dest Path Parts.
  apply (Explode_ind semicolon (fun Path Parts => forall a b,
    59 :: Path ++ [59] = a ++ 59 :: Param ++ 59 :: b -> In Param Parts)).
  - intros Text Ep a b H. left.
    assert (Hc : ~ In 59 Text).
    { apply indexOf_single_None, Pos_0_nil; [discriminate|exact Ep]. }
    destruct a as [|u a]; cbn [app] in H;
      [injection H as H|injection H as Hu H].
    + symmetry. eapply (first_semicolon 59); [exact Hfree|exact Hc|].
      symmetry. exact H.
    + clear Hu. symmetry in H.
      destruct (split_at_first 59 Text a _ [] Hc H) as (k & _ & Hk).
      apply (f_equal length) in Hk. rewrite !length_app in Hk.
      cbn [length] in Hk. rewrite length_app in Hk. cbn [length] in Hk. lia.
  - intros Text j Ep Ed a b H. left.
    pose proof (before_semicolon _ _ Ep) as Hc.
    pose proof (around_semicolon _ _ Ep) as Ht.
    cbn [semicolon length] in Ed. rewrite Ed in Ht.
    remember (take j Text) as t eqn:Et. clear Et Ed Ep. subst Text.
    rewrite <- app_assoc in H. cbn [app] in H.
    destruct a as [|u a]; cbn [app] in H;
      [injection H as H|injection H as Hu H].
    + symmetry. eapply (first_semicolon 59); [exact Hfree|exact Hc|].
      symmetry. exact H.
    + clear Hu. symmetry in H.
      destruct (split_at_first 59 t a _ [59] Hc H) as (k & _ & Hk).
      apply (f_equal length) in Hk. rewrite !length_app in Hk.
      cbn [length] in Hk. rewrite length_app in Hk. cbn [length] in Hk.
      destruct Param; [congruence|]. cbn [length] in Hk. lia.
  - intros Text j parts Ep _ _ IH a b H.
    pose proof (before_semicolon _ _ Ep) as Hc.
    pose proof (around_semicolon _ _ Ep) as Ht.
    cbn [semicolon length] in IH.
    remember (take j Text) as t eqn:Et.
    remember (drop (j + 1) Text) as d eqn:Ed. clear Et Ed Ep. subst Text.
    rewrite <- app_assoc in H. cbn [app] in H.
    destruct a as [|u a]; cbn [app] in H;
      [injection H as H|injection H as Hu H].
    + left. symmetry. eapply (first_semicolon 59); [exact Hfree|exact Hc|].
      symmetry. exact H.
    + clear Hu. symmetry in H. right.
      destruct (split_at_first 59 t a _ (d ++ [59]) Hc H) as (k & _ & Hk).
      exact (IH k b Hk).
Qed.

(** X14. [NeedsAddPath] answers no exactly when the directory is one of the
    entries [Explode] cuts the PATH value into, for a directory that is not
    empty and holds no semicolon; so what the installer would add is what the
    uninstaller looks for. *)
Theorem NeedsAddPath_Explode (Dest : list (list N)) (Path Param : list N)
    (Parts : list (list N)) :
  Explode Dest Path semicolon = Some Parts ->
  Param <> [] -> ~ In 59 Param ->
  NeedsAddPath (Some Path) Param = false <-> In Param Parts.
Proof.
  intros He Hne Hfree. rewrite NeedsAddPath_false. split.
  - intros (a & b & H). exact (occurs_listed Param Dest Path Parts Hne Hfree He a b H).
  - exact (listed_occurs Param Dest Path Parts He).
Qed.

(** ** The uninstaller's loop *)

Section UninstallProperties.

Variable CompareText : list N -> list N -> Z.
Variable VSCodePath : list N.

Local Abbreviation keep := (kept CompareText VSCodePath).

Lemma NewPath_loop_shape (init : list (list N)) (l : list N) (i : nat)
    (acc : list N) :
  NewPath_loop CompareText (init ++ [l]) VSCodePath i (i + length init + 1) acc =
  acc ++ concat (map (fun part => part ++ semicolon) (List.filter keep init))
      ++ (if keep l then l else []).
Proof.
  revert i acc. induction init as [|p init IH]; intros i acc.
  - cbn [app NewPath_loop length List.filter map concat].
    replace (i <? i + 0 + 1 - 1)%nat with false
      by (symmetry; apply Nat.ltb_ge; lia).
    destruct (keep l); [reflexivity|now rewrite app_nil_r].
  - cbn [app NewPath_loop length List.filter].
    replace (i <? i + S (length init) + 1 - 1)%nat with true
      by (symmetry; apply Nat.ltb_lt; lia).
    replace (i + S (length init) + 1)%nat with (S i + length init + 1)%nat
      by lia.
    rewrite IH. destruct (keep p); [|reflexivity].
    cbn [map concat]. now rewrite <- !app_assoc.
Qed.

(** X15. The loop of [CurUninstallStepChanged] joins the entries it keeps: each
    kept entry but the last of the array is followed by a semicolon and a kept
    last entry by none, so the new value ends in a semicolon when the last
    entry is the one dropped and an earlier one is kept. *)
Theorem NewPath_shape (init : list (list N)) (l : list N) :
  NewPath CompareText (init ++ [l]) VSCodePath =
  concat (map (fun part => part ++ semicolon) (List.filter keep init))
    ++ (if keep l then l else []).
Proof.
  unfold NewPath. rewrite length_app. cbn [length].
  apply (NewPath_loop_shape init l 0 []).
Qed.



End UninstallProperties.


(** ** The PATH properties on a worked value *)

Import PathScenario.


Lemma Explode_parts_free_witness :
  Forall (fun part => Pos semicolon part = O)
    [str "C:\Windows"; str "C:\Code\bin"; []; str "D:\tools"].
Proof.
  apply (Explode_parts_free [] path_value semicolon). reflexivity.
Defined.

Lemma NeedsAddPath_Explode_witness :
  NeedsAddPath (Some path_value) bin = false <->
  In bin [str "C:\Windows"; str "C:\Code\bin"; []; str "D:\tools"].
Proof.
  apply (NeedsAddPath_Explode [] path_value bin).
  - reflexivity.
  - discriminate.
  - vm_compute. intuition discriminate.
Defined.

